(** * Probe-and-aggregate logic of the end-to-end test suite

    A shallow embedding of the parts of [e2e-tests/utils/test-helpers.ts] and
    [e2e-tests/tests/multi-app-integration.spec.ts] (with the blog suite that
    follows it) that probe endpoints, classify the answers, accumulate layout
    shift and fold the results into a health score.

    Conventions of the embedding:
    - JavaScript numbers that hold milliseconds, counters and status codes are
      integers ([Z]); scores and paint timings are exact rationals ([Q]), so
      rounding of IEEE doubles is not modelled;
    - the network client, the browser and the clock are external: their
      behaviour is a parameter (what the n-th round trip does, how long it
      takes) and the code under study is a function of it;
    - the text that the assertion library puts in the message of a failed
      [expect] is a parameter as well ([Js.Report]);
    - [console.log] output is not modelled. *)

From Stdlib Require Import ZArith QArith Lia List Permutation.
From stdpp Require Import base option list strings gmap.

Open Scope Z_scope.

(** ** JavaScript values and exceptions *)
Module Js.

(** What a [catch (error)] clause can receive: an [Error] object (a
    Playwright [TimeoutError] and the [Error] of a failed [expect] are
    [Error]s) or any other thrown value. *)
Inductive Thrown : Type :=
| JsError (name message : string)
| NonError.

(** [error instanceof Error ? error.message : fallback] *)
Definition message_or (fallback : string) (error : Thrown) : string :=
  match error with
  | JsError _ message => message
  | NonError => fallback
  end.

Inductive Outcome (A : Type) : Type :=
| Ok (a : A)
| Throw (e : Thrown).
Arguments Ok {A} a.
Arguments Throw {A} e.

(** [a || b] on an optional string: [undefined] and the empty string are
    falsy. *)
Definition or_default (a : option string) (b : string) : string :=
  match a with
  | Some s => if String.eqb s "" then b else s
  | None => b
  end.

(** [a / b] on numbers, [None] when the quotient is not a finite number
    ([NaN] or an infinity). *)
Definition div (a b : Z) : option Q :=
  if b =? 0 then None else Some (inject_Z a / inject_Z b)%Q.

(** [s.includes(sub)] *)
Fixpoint includes (s sub : string) : bool :=
  String.prefix sub s ||
  match s with
  | EmptyString => false
  | String _ rest => includes rest sub
  end.

(** A number that may not be finite: the quotient of two integers is [NaN]
    for 0 / 0 and an infinity for a non-zero dividend over 0. *)
Inductive Num : Type :=
| Finite (q : Q)
| NaN
| Infinity (positive : bool).

Definition quotient (a b : Z) : Num :=
  if b =? 0 then (if a =? 0 then NaN else Infinity (0 <? a))
  else Finite (inject_Z a / inject_Z b)%Q.

(** [x * 100] *)
Definition times100 (x : Num) : Num :=
  match x with
  | Finite q => Finite (q * 100)%Q
  | NaN => NaN
  | Infinity positive => Infinity positive
  end.

(** [x < c] and [x > c] for a finite [c]; every comparison with [NaN] is
    false. *)
Definition num_lt (x : Num) (c : Q) : bool :=
  match x with
  | Finite q => match (q ?= c)%Q with Lt => true | _ => false end
  | NaN => false
  | Infinity positive => negb positive
  end.

Definition num_gt (x : Num) (c : Q) : bool :=
  match x with
  | Finite q => match (q ?= c)%Q with Gt => true | _ => false end
  | NaN => false
  | Infinity positive => positive
  end.

(** What [expect] compares: numbers or strings. *)
Inductive Operand : Type :=
| Number (x : Num)
| Text (s : string).

(** The message of the [Error] that a failed
    [expect(received).matcher(expected)] throws. The assertion library
    builds it from the name of the matcher and the two operands; its
    wording, spacing and colour codes are the library's own, so that the
    text is taken as given. *)
Class Report : Type := report : string -> Operand -> Operand -> string.

(** The [Error] of a failed [expect]. *)
Definition failed_expect {reporting : Report} (matcher : string)
    (received expected : Operand) : Thrown :=
  JsError "Error" (report matcher received expected).

(** A promise settles once: later calls of [resolve] are ignored. *)
Definition resolve {A : Type} (v : A) (settled : option A) : option A :=
  match settled with
  | Some _ => settled
  | None => Some v
  end.

End Js.
Import Js.

(** ** The outside world *)

(** One round trip to an endpoint ([request.get] or [page.goto]): an answer
    with its HTTP status, or a rejection (connection refused, DNS failure,
    timeout), each after some elapsed milliseconds. *)
Inductive Attempt : Type :=
| Responded (status : Z) (elapsed : N)
| Rejected (e : Thrown) (elapsed : N).

(** The rejection of a round trip that was cut off after [timeout] ms. *)
Definition timed_out (timeout : N) (message : string) : Attempt :=
  Rejected (JsError "TimeoutError" message) timeout.

(** The clock read by [Date.now()] and the number of round trips so far. *)
Record World : Type := mkWorld { now : Z; calls : nat }.

(** The network: what the [n]-th round trip, to a given URL, does. *)
Definition Network : Type := nat -> string -> Attempt.

(** ** A state-and-exception monad for test bodies

    [L] holds the mutable locals of the test (the arrays and counters that
    the loop bodies update); a [Throw] keeps the updates made before it, as
    a JavaScript exception does. *)
Definition M (L A : Type) : Type := World -> L -> Outcome A * World * L.

Definition ret {L A} (a : A) : M L A := fun w l => (Ok a, w, l).

Definition bind {L A B} (m : M L A) (k : A -> M L B) : M L B :=
  fun w l =>
    match m w l with
    | (Ok a, w', l') => k a w' l'
    | (Throw e, w', l') => (Throw e, w', l')
    end.

Notation "'let*' x ':=' m 'in' k" := (bind m (fun x => k))
  (at level 10, x name, m at level 100, k at level 200, only parsing).
Notation "m ';;;' k" := (bind m (fun _ => k))
  (at level 100, k at level 200, right associativity, only parsing).

Definition throw {L A} (e : Thrown) : M L A := fun w l => (Throw e, w, l).

(** [try { body } catch (error) { handler }] *)
Definition try_catch {L A} (body : M L A) (handler : Thrown -> M L A) : M L A :=
  fun w l =>
    match body w l with
    | (Ok a, w', l') => (Ok a, w', l')
    | (Throw e, w', l') => handler e w' l'
    end.

Definition modify {L} (f : L -> L) : M L unit := fun w l => (Ok tt, w, f l).
Definition get_locals {L} : M L L := fun w l => (Ok l, w, l).

(** Whether a run ended without an exception: for a test, whether it
    passed. *)
Definition passes {L A} (run : Outcome A * World * L) : Prop :=
  exists a, fst (fst run) = Ok a.

(** The number of the next round trip: what identifies its response. *)
Definition call_index {L} : M L nat := fun w l => (Ok (calls w), w, l).

(** [Date.now()] *)
Definition Date_now {L} : M L Z := fun w l => (Ok (now w), w, l).

(** [await request.get(url)] and [await page.goto(url, ...)]: the status of
    the response, or the rejection rethrown at the [await]. *)
Definition round_trip {L} (net : Network) (url : string) : M L Z :=
  fun w l =>
    match net (calls w) url with
    | Responded status elapsed =>
        (Ok status, mkWorld (now w + Z.of_N elapsed) (S (calls w)), l)
    | Rejected e elapsed =>
        (Throw e, mkWorld (now w + Z.of_N elapsed) (S (calls w)), l)
    end.

(** [for (const x of xs) { body }] *)
Fixpoint for_of {L X} (xs : list X) (body : X -> M L unit) : M L unit :=
  match xs with
  | [] => ret tt
  | x :: rest => body x ;;; for_of rest body
  end.

(** ** utils/test-helpers.ts *)
Module TestHelpers.

Record TestConfig : Type := mkTestConfig {
  blogUrl : string;
  apiUrl : string;
  uploadUrl : string;
  cronUrl : string;
}.

(** [process.env] is a map from variable names to strings. *)
Definition DEFAULT_CONFIG (env : gmap string string) : TestConfig :=
  {| blogUrl := or_default (env !! "BLOG_URL") "http://localhost:3000";
     apiUrl := or_default (env !! "API_URL") "http://localhost:3000";
     uploadUrl := or_default (env !! "UPLOAD_URL") "http://localhost:3000";
     cronUrl := or_default (env !! "CRON_URL") "http://localhost:3000" |}.

(** [PERFORMANCE_THRESHOLDS] *)
Definition LCP : Q := 2500.
Definition FID : Q := 100.
Definition CLS : Q := 1 # 10.
Definition TTFB : Q := 600.

(** [HTTP_STATUS] *)
Definition OK : Z := 200.
Definition CREATED : Z := 201.
Definition BAD_REQUEST : Z := 400.
Definition UNAUTHORIZED : Z := 401.
Definition FORBIDDEN : Z := 403.
Definition NOT_FOUND : Z := 404.
Definition INTERNAL_SERVER_ERROR : Z := 500.

(** *** waitForCondition *)

(** How one [await condition()] ends: the promise is fulfilled with a
    boolean, is rejected, or never settles. *)
Inductive Settled : Type :=
| Fulfilled (value : bool)
| Failed (e : Thrown)
| Pending.

(** An evaluation of the condition, with the milliseconds it took when it
    settles. *)
Record Evaluation : Type := mkEvaluation { settled : Settled; took : N }.

(** The environment of a call: the time that passes between the two first
    readings of the clock, what the [k]-th evaluation of the condition
    does, and the milliseconds after which the [k]-th timer fires, given the
    delay that [setTimeout] was asked for. How the delay asked for turns
    into the time waited is the platform's business (Node, for one, waits
    1 ms when asked for less than 1 or more than 2147483647), so it is
    taken as given. The timeout and the interval are whole numbers of
    milliseconds. *)
Record WaitEnv : Type := mkWaitEnv {
  first_gap : N;
  condition : nat -> Evaluation;
  timer : Z -> nat -> N;
}.

(** What the caller sees, with the number of evaluations of the
    condition. *)
Record WaitResult : Type := mkWaitResult {
  answer : Outcome bool;
  evaluations : nat;
}.

(** The [while] loop; [k] counts the evaluations made so far and [t] is
    the clock. [None] means that the call has not returned: the fuel ran
    out before the loop ended, or an [await condition()] never resumes. *)
Fixpoint wait_loop (fuel : nat) (env : WaitEnv) (timeout interval : Z)
    (startTime t : Z) (k : nat) : option WaitResult :=
  match fuel with
  | O => None
  | S fuel' =>
      if t - startTime <? timeout then
        let ev := condition env k in
        let t1 := t + Z.of_N (took ev) in
        match settled ev with
        | Fulfilled true => Some (mkWaitResult (Ok true) (S k))
        | Failed e => Some (mkWaitResult (Throw e) (S k))
        | Pending => None
        | Fulfilled false =>
            wait_loop fuel' env timeout interval startTime
              (t1 + Z.of_N (timer env interval k)) (S k)
        end
      else Some (mkWaitResult (Ok false) k)
  end.

Definition waitForCondition (fuel : nat) (env : WaitEnv)
    (timeout interval : Z) (startTime : Z) : option WaitResult :=
  wait_loop fuel env timeout interval startTime
    (startTime + Z.of_N (first_gap env)) 0.

(** [ceil(timeout / interval)] as a number of times. *)
Definition ceil_div (timeout interval : Z) : nat :=
  Z.to_nat ((timeout + interval - 1) / interval).

End TestHelpers.

(** ** tests/multi-app-integration.spec.ts *)
Module MultiApp.
Import TestHelpers.

Record AppUrl : Type := mkAppUrl { name : string; url : string }.

(** *** 'should verify all example applications are accessible' *)

Definition appUrls (apps : TestConfig) : list AppUrl :=
  [ mkAppUrl "Blog" (blogUrl apps);
    mkAppUrl "Express API" (apiUrl apps);
    mkAppUrl "Image Upload" (uploadUrl apps);
    mkAppUrl "Cron Monitor" (cronUrl apps) ].

(** An element of [results]; [error] is only set by the [catch] clause. *)
Record AccessResult : Type := mkAccessResult {
  r_name : string;
  r_url : string;
  r_status : Z;
  r_responseTime : Z;
  r_accessible : bool;
  r_error : option string;
}.

(** [status >= 200 && status < 400] *)
Definition in_success_range (status : Z) : bool :=
  (200 <=? status) && (status <? 400).

(** The body of the [for] loop over [appUrls]. *)
Definition accessibility_body (net : Network) (app : AppUrl)
    : M (list AccessResult) unit :=
  try_catch
    (let* startTime := Date_now in
     let* status := round_trip net (url app) in
     let* endTime := Date_now in
     let responseTime := endTime - startTime in
     modify (fun results => results ++
       [ {| r_name := name app;
            r_url := url app;
            r_status := status;
            r_responseTime := responseTime;
            r_accessible := in_success_range status;
            r_error := None |} ]))
    (fun error =>
     modify (fun results => results ++
       [ {| r_name := name app;
            r_url := url app;
            r_status := 0;
            r_responseTime := 0;
            r_accessible := false;
            r_error := Some (message_or "Unknown error" error) |} ])).

(** The loop, started with [results = []]. *)
Definition probe_apps (net : Network) (apps : list AppUrl) (w : World)
    : Outcome unit * World * list AccessResult :=
  for_of apps (accessibility_body net) w [].

(** What the loop body records for one application, given how its round
    trip ended. *)
Definition observe (app : AppUrl) (a : Attempt) : AccessResult :=
  match a with
  | Responded status elapsed =>
      mkAccessResult (name app) (url app) status (Z.of_N elapsed)
        (in_success_range status) None
  | Rejected e _ =>
      mkAccessResult (name app) (url app) 0 0 false
        (Some (message_or "Unknown error" e))
  end.

(** *** 'should measure overall system health and integration' *)

Inductive EndpointType : Type := web | api.

Record Endpoint : Type := mkEndpoint {
  e_name : string;
  e_url : string;
  e_type : EndpointType;
}.

Definition testEndpoints (apps : TestConfig) : list Endpoint :=
  [ mkEndpoint "Blog" (blogUrl apps) web;
    mkEndpoint "API Data" (apiUrl apps +:+ "/api/data") api;
    mkEndpoint "API Root" (apiUrl apps +:+ "/api/") web ].

(** [healthMetrics.accessibleApps], [healthMetrics.apiEndpoints] and the
    three [let] counters of the test. *)
Record Health : Type := mkHealth {
  accessibleApps : Z;
  apiEndpoints : Z;
  totalTests : Z;
  failedTests : Z;
  totalTime : Z;
}.

Definition health0 : Health := mkHealth 0 0 0 0 0.

Definition is_api (t : EndpointType) : bool :=
  match t with api => true | web => false end.

(** The body of the [for] loop over [testEndpoints]. *)
Definition health_body (net : Network) (endpoint : Endpoint) : M Health unit :=
  modify (fun h => mkHealth (accessibleApps h) (apiEndpoints h)
                     (totalTests h + 1) (failedTests h) (totalTime h)) ;;;
  try_catch
    (let* startTime := Date_now in
     if is_api (e_type endpoint) then
       let* status := round_trip net (e_url endpoint) in
       let* endTime := Date_now in
       let responseTime := endTime - startTime in
       (if in_success_range status then
          modify (fun h => mkHealth (accessibleApps h + 1)
                     (if is_api (e_type endpoint)
                      then apiEndpoints h + 1 else apiEndpoints h)
                     (totalTests h) (failedTests h) (totalTime h))
        else
          modify (fun h => mkHealth (accessibleApps h) (apiEndpoints h)
                     (totalTests h) (failedTests h + 1) (totalTime h))) ;;;
       modify (fun h => mkHealth (accessibleApps h) (apiEndpoints h)
                     (totalTests h) (failedTests h) (totalTime h + responseTime))
     else
       let* _status := round_trip net (e_url endpoint) in
       let* endTime := Date_now in
       let responseTime := endTime - startTime in
       modify (fun h => mkHealth (accessibleApps h + 1) (apiEndpoints h)
                     (totalTests h) (failedTests h) (totalTime h + responseTime)))
    (fun _error =>
     modify (fun h => mkHealth (accessibleApps h) (apiEndpoints h)
                     (totalTests h) (failedTests h + 1) (totalTime h))).

Definition health_loop (net : Network) (endpoints : list Endpoint) (w : World)
    : Outcome unit * World * Health :=
  for_of endpoints (health_body net) w health0.

(** The counters after the loop (the loop never throws, see
    [health_loop_ok]). *)
Definition health_of (net : Network) (endpoints : list Endpoint) (w : World)
    : Health :=
  snd (health_loop net endpoints w).

(** [(failedTests / totalTests) * 100] *)
Definition errorRate (h : Health) : option Q :=
  (fun q => q * 100)%Q <$> Js.div (failedTests h) (totalTests h).

(** [(healthMetrics.accessibleApps / testEndpoints.length) * 100] *)
Definition healthScore (h : Health) (endpoints : list Endpoint) : option Q :=
  (fun q => q * 100)%Q <$> Js.div (accessibleApps h) (Z.of_nat (length endpoints)).

(** Whether the health loop counts an endpoint as accessible, given how
    its round trip ended. *)
Definition counted_accessible (endpoint : Endpoint) (a : Attempt) : bool :=
  match a with
  | Responded status _ =>
      if is_api (e_type endpoint) then in_success_range status else true
  | Rejected _ _ => false
  end.

(** A run of the health check over endpoints paired with the way their
    round trips end: the [i]-th round trip is the one of the [i]-th
    endpoint. *)
Definition scripted (script : list Attempt) : Network :=
  fun n _ => nth n script (Rejected NonError 0).

Definition health_run (runs : list (Endpoint * Attempt)) : Health :=
  health_of (scripted (map snd runs)) (map fst runs) (mkWorld 0 0).

Definition healthScore_run (runs : list (Endpoint * Attempt)) : option Q :=
  healthScore (health_run runs) (map fst runs).

(** *** 'should measure cross-application performance' *)

(** A [layout-shift] performance entry. *)
Record LayoutShift : Type := mkLayoutShift {
  value : Q;
  hadRecentInput : bool;
}.

(** A [paint] performance entry. *)
Record PaintEntry : Type := mkPaintEntry {
  p_name : string;
  p_startTime : Q;
}.

(** What the browser reports for one loaded page before the timer of the
    measurement fires: how [waitForLoadState] ends, the paint entries
    already recorded, and the batches of entries handed to each observer
    callback, in order ([startTime]s for largest-contentful-paint). *)
Record PageBehaviour : Type := mkPageBehaviour {
  load_state : option Thrown;
  paints : list PaintEntry;
  lcp_batches : list (list Q);
  shift_batches : list (list LayoutShift);
}.

(** The [metrics] object built inside [page.evaluate]. *)
Record Metrics : Type := mkMetrics {
  m_lcp : option Q;
  m_fcp : option Q;
  m_cls : option Q;
}.

(** The largest-contentful-paint callback. *)
Definition on_lcp (lcp : option Q) (entries : list Q) : option Q :=
  match entries with
  | [] => lcp
  | e :: rest => Some (List.last rest e)
  end.

(** The [for] loop of the layout-shift callbacks:
    [if (!entry.hadRecentInput) clsValue += entry.value]. *)
Definition accumulate_shifts (clsValue : Q) (entries : list LayoutShift) : Q :=
  fold_left
    (fun acc entry => if hadRecentInput entry then acc else (acc + value entry)%Q)
    entries clsValue.

(** The layout-shift callback of this test: accumulate, then
    [metrics.cls = clsValue]. The state is [clsValue] and [metrics.cls]. *)
Definition on_shift (st : Q * option Q) (entries : list LayoutShift)
    : Q * option Q :=
  let clsValue := accumulate_shifts (fst st) entries in
  (clsValue, Some clsValue).

(** [performance.getEntriesByType('paint').find(...)] *)
Definition find_fcp (entries : list PaintEntry) : option Q :=
  p_startTime <$>
    List.find (fun e => String.eqb (p_name e) "first-contentful-paint") entries.

(** The promise of [page.evaluate]: the [metrics] object as it is when
    the 3000 ms timer resolves it. *)
Definition measure (pb : PageBehaviour) : Metrics :=
  {| m_lcp := fold_left on_lcp (lcp_batches pb) None;
     m_fcp := find_fcp (paints pb);
     m_cls := snd (fold_left on_shift (shift_batches pb) (0%Q, None)) |}.

(** The [testApps] of this test. *)
Definition perfTestApps (apps : TestConfig) : list AppUrl :=
  [ mkAppUrl "Blog" (blogUrl apps);
    mkAppUrl "Express API (via browser)" (apiUrl apps +:+ "/api/") ].

(** An element of [performanceMetrics]. *)
Record PerfEntry : Type := mkPerfEntry {
  pe_app : string;
  pe_lcp : option Q;
  pe_cls : option Q;
  pe_fcp : option Q;
  pe_error : option string;
}.

(** [expect(received).toBeLessThan(expected)] *)
Definition expect_toBeLessThan {reporting : Report} {L} (received expected : Q) : M L unit :=
  match received ?= expected with
  | Lt => ret tt
  | _ => throw (failed_expect "toBeLessThan"
                  (Number (Finite received)) (Number (Finite expected)))
  end%Q.

(** A number used as a condition: zero is falsy. *)
Definition truthy (q : Q) : bool := negb (Qeq_bool q 0).

(** [q > 0] *)
Definition positive (q : Q) : bool :=
  match (q ?= 0)%Q with Gt => true | _ => false end.

(** 'Verify performance thresholds' *)
Definition check_thresholds {reporting : Report} {L} (m : Metrics) : M L unit :=
  match m_lcp m with
  | Some lcp =>
      if truthy lcp && positive lcp then expect_toBeLessThan lcp LCP else ret tt
  | None => ret tt
  end ;;;
  match m_cls m with
  | Some cls => expect_toBeLessThan cls CLS
  | None => ret tt
  end.

(** [await page.waitForLoadState('networkidle', ...)] *)
Definition waitForLoadState {L} (pb : PageBehaviour) : M L unit :=
  match load_state pb with
  | Some e => throw e
  | None => ret tt
  end.

(** The body of the [for] loop over [testApps]; [pages] tells what the
    browser reports for the page at a URL. *)
Definition perf_body {reporting : Report} (net : Network) (pages : string -> PageBehaviour)
    (app : AppUrl) : M (list PerfEntry) unit :=
  try_catch
    (let* _status := round_trip net (url app) in
     waitForLoadState (pages (url app)) ;;;
     let metrics := measure (pages (url app)) in
     modify (fun performanceMetrics => performanceMetrics ++
       [ mkPerfEntry (name app) (m_lcp metrics) (m_cls metrics)
           (m_fcp metrics) None ]) ;;;
     check_thresholds metrics)
    (fun error =>
     modify (fun performanceMetrics => performanceMetrics ++
       [ mkPerfEntry (name app) None None None
           (Some (message_or "Performance test failed" error)) ])).

(** [expect(received).toBeGreaterThan(expected)] on integers *)
Definition expect_toBeGreaterThan {reporting : Report} {L} (received expected : Z) : M L unit :=
  if expected <? received then ret tt
  else throw (failed_expect "toBeGreaterThan"
                (Number (Finite (inject_Z received)))
                (Number (Finite (inject_Z expected)))).

(** *** 'should validate API integration patterns' *)

Record ApiTest : Type := mkApiTest {
  t_name : string;
  t_url : string;
  expectedStatus : Z;
  expectedContentType : string;
}.

Definition apiTests (apps : TestConfig) : list ApiTest :=
  [ mkApiTest "Express API Health" (apiUrl apps +:+ "/api/data") OK
      "application/json";
    mkApiTest "Express API Root" (apiUrl apps +:+ "/api/") OK "text/html" ].

(** What a response carries besides its status: its [content-type] header,
    the error, if any, that reading its body as JSON and listing the keys of
    the value throws, and its body as text. *)
Record Content : Type := mkContent {
  contentType : option string;
  json_error : option Thrown;
  text : string;
}.

(** The contents of the response of the [n]-th round trip, to a given URL. *)
Definition Contents : Type := nat -> string -> Content.

(** An element of [apiResults]; the [catch] clause sets neither [status] nor
    [contentType]. *)
Record ApiResult : Type := mkApiResult {
  a_name : string;
  a_url : string;
  a_status : option Z;
  a_contentType : option string;
  a_success : bool;
  a_error : option string;
}.

(** [status === expectedStatus && (contentType?.includes(expected) || false)] *)
Definition api_success (apiTest : ApiTest) (status : Z) (content : Content)
    : bool :=
  (status =? expectedStatus apiTest)
  && from_option (fun ct => includes ct (expectedContentType apiTest)) false
       (contentType content).

(** The body of the [for] loop over [apiTests]. *)
Definition api_body {reporting : Report} (net : Network) (contents : Contents) (apiTest : ApiTest)
    : M (list ApiResult) unit :=
  try_catch
    (let* k := call_index in
     let* status := round_trip net (t_url apiTest) in
     let content := contents k (t_url apiTest) in
     let success := api_success apiTest status content in
     modify (fun apiResults => apiResults ++
       [ mkApiResult (t_name apiTest) (t_url apiTest) (Some status)
           (contentType content) success None ]) ;;;
     if success then
       if String.eqb (expectedContentType apiTest) "application/json" then
         (* [expect(data).toBeDefined()] holds for every parsed value *)
         match json_error content with
         | Some e => throw e
         | None => ret tt
         end
       else
         expect_toBeGreaterThan (Z.of_nat (String.length (text content))) 0
     else ret tt)
    (fun error =>
     modify (fun apiResults => apiResults ++
       [ mkApiResult (t_name apiTest) (t_url apiTest) None None false
           (Some (message_or "API test failed" error)) ])).

(** The whole test: the loop, then
    [expect(successfulApis.length).toBeGreaterThan(0)]. *)
Definition api_test {reporting : Report} (net : Network) (contents : Contents)
    (tests : list ApiTest) : M (list ApiResult) unit :=
  for_of tests (api_body net contents) ;;;
  let* apiResults := get_locals in
  let successfulApis := List.filter a_success apiResults in
  expect_toBeGreaterThan (Z.of_nat (length successfulApis)) 0.

(** *** The assertions that end the tests *)

(** The same matchers on a number that may not be finite. *)
Definition expect_num_toBeLessThan {reporting : Report} {L} (received : Num) (expected : Q)
    : M L unit :=
  if num_lt received expected then ret tt
  else throw (failed_expect "toBeLessThan"
                (Number received) (Number (Finite expected))).

Definition expect_num_toBeGreaterThan {reporting : Report} {L} (received : Num) (expected : Q)
    : M L unit :=
  if num_gt received expected then ret tt
  else throw (failed_expect "toBeGreaterThan"
                (Number received) (Number (Finite expected))).

(** 'should verify all example applications are accessible', whole: the
    loop, then [expect(accessibleApps.length).toBeGreaterThan(0)]. *)
Definition accessibility_test {reporting : Report} (net : Network) (apps : list AppUrl)
    : M (list AccessResult) unit :=
  for_of apps (accessibility_body net) ;;;
  let* results := get_locals in
  let accessible := List.filter r_accessible results in
  expect_toBeGreaterThan (Z.of_nat (length accessible)) 0.

(** 'should measure overall system health and integration', whole: the
    loop, the three derived metrics and the four assertions. *)
Definition health_test {reporting : Report} (net : Network) (endpoints : list Endpoint)
    : M Health unit :=
  for_of endpoints (health_body net) ;;;
  let* h := get_locals in
  let errorRate := times100 (quotient (failedTests h) (totalTests h)) in
  let averageLoadTime := quotient (totalTime h) (totalTests h) in
  expect_toBeGreaterThan (accessibleApps h) 0 ;;;
  expect_num_toBeLessThan errorRate 100 ;;;
  expect_num_toBeLessThan averageLoadTime 30000 ;;;
  let healthScore :=
    times100 (quotient (accessibleApps h) (Z.of_nat (length endpoints))) in
  expect_num_toBeGreaterThan healthScore 0.

(** [m.lcp || m.fcp || m.cls !== undefined] *)
Definition has_metrics (m : PerfEntry) : bool :=
  from_option truthy false (pe_lcp m)
  || from_option truthy false (pe_fcp m)
  || bool_decide (is_Some (pe_cls m)).

(** 'should measure cross-application performance', whole: the loop, then
    [expect(appsWithMetrics.length).toBeGreaterThan(0)]. *)
Definition perf_test {reporting : Report} (net : Network) (pages : string -> PageBehaviour)
    (apps : list AppUrl) : M (list PerfEntry) unit :=
  for_of apps (perf_body net pages) ;;;
  let* performanceMetrics := get_locals in
  let appsWithMetrics := List.filter has_metrics performanceMetrics in
  expect_toBeGreaterThan (Z.of_nat (length appsWithMetrics)) 0.


End MultiApp.

(** ** The blog suite: 'should measure Core Web Vitals' *)
Module Blog.
Import TestHelpers MultiApp.

(** The layout-shift callback of this test: accumulate, then
    [resolve(clsValue)]. The state is [clsValue] and the promise. *)
Definition on_shift_resolve (st : Q * option Q) (entries : list LayoutShift)
    : Q * option Q :=
  let clsValue := accumulate_shifts (fst st) entries in
  (clsValue, Js.resolve clsValue (snd st)).

(** The value of the [cls] promise: the callbacks run on the batches that
    arrive within the 5 seconds, then the timer calls [resolve(clsValue)]. *)
Definition measure_cls (batches : list (list LayoutShift)) : option Q :=
  let st := fold_left on_shift_resolve batches (0%Q, None) in
  Js.resolve (fst st) (snd st).

(** 'Verify performance thresholds' at the end of the test, on the
    numbers the two promises gave; a [Throw] here fails the test. *)
Definition verify_thresholds {reporting : Report} (lcp cls : Q) : M unit unit :=
  (if positive lcp then expect_toBeLessThan lcp LCP else ret tt) ;;;
  expect_toBeLessThan cls CLS.

(** The largest-contentful-paint callback: [resolve] the start time of the
    last entry of the batch. The observer is only called with entries to
    hand over: a batch is a first entry and those that follow it. *)
Definition on_lcp_resolve (promise : option Q) (batch : Q * list Q) : option Q :=
  Js.resolve (List.last (snd batch) (fst batch)) promise.

(** The value of the [lcp] promise; the fallback timer calls [resolve(0)]. *)
Definition measure_lcp (batches : list (Q * list Q)) : option Q :=
  Js.resolve 0%Q (fold_left on_lcp_resolve batches None).

(** The whole test: the navigation, the two measurements and the checks,
    each under its [typeof ... === 'number'] guard. *)
Definition core_web_vitals_test {reporting : Report} (net : Network) (blogUrl : string)
    (lcp_batches : list (Q * list Q)) (shift_batches : list (list LayoutShift))
    : M unit unit :=
  let* _status := round_trip net blogUrl in
  let lcp := measure_lcp lcp_batches in
  let cls := measure_cls shift_batches in
  match lcp with
  | Some l => if positive l then expect_toBeLessThan l LCP else ret tt
  | None => ret tt
  end ;;;
  match cls with
  | Some c => expect_toBeLessThan c CLS
  | None => ret tt
  end.

(** *** 'should load RSS feed if available' *)

Definition rssPaths : list string :=
  ["/rss"; "/rss.xml"; "/feed"; "/feed.xml"; "/api/rss"].

(** [expect(content).toContain(part)] on strings *)
Definition expect_toContain {reporting : Report} {L} (content part : string) : M L unit :=
  if includes content part then ret tt
  else throw (failed_expect "toContain" (Text content) (Text part)).

(** The body of the loop over [rssPaths]; the result tells whether the
    body ended in [break]. *)
Definition rss_body {reporting : Report} (net : Network) (contents : Contents) (blogUrl path : string)
    : M unit bool :=
  try_catch
    (let* k := call_index in
     let* status := round_trip net (blogUrl +:+ path) in
     if status =? 200 then
       let contentType := contentType (contents k (blogUrl +:+ path)) in
       if from_option (fun ct => includes ct "xml") false contentType
          || from_option (fun ct => includes ct "rss") false contentType
       then
         let content := text (contents k (blogUrl +:+ path)) in
         expect_toContain content "<rss" ;;;
         expect_toContain content "<channel>" ;;;
         ret true
       else ret false
     else ret false)
    (fun _error => ret false).

Fixpoint rss_test {reporting : Report} (net : Network) (contents : Contents) (blogUrl : string)
    (paths : list string) : M unit unit :=
  match paths with
  | [] => ret tt
  | path :: rest =>
      let* stop := rss_body net contents blogUrl path in
      if stop then ret tt else rss_test net contents blogUrl rest
  end.

End Blog.

(** ** global-setup.ts: 'Verifying application availability' *)
Module GlobalSetup.

(** The two guarded navigations of [globalSetup]. *)
Definition verify_availability (net : Network) : M unit unit :=
  try_catch
    (let* _status := round_trip net "http://localhost:3000" in ret tt)
    (fun _error => ret tt) ;;;
  try_catch
    (let* _status := round_trip net "http://localhost:3001" in ret tt)
    (fun _error => ret tt).

End GlobalSetup.

(** ** The setup project: 'authenticate and prepare test environment' *)
Module AuthSetup.

(** The [apps] object of [generatedTestData]. *)
Record GeneratedApps : Type := mkGeneratedApps {
  blog : string;
  api : string;
  upload : string;
  cron : string;
}.

Definition generatedApps (env : gmap string string) : GeneratedApps :=
  {| blog := or_default (env !! "BLOG_URL") "http://localhost:3000";
     api := or_default (env !! "API_URL") "http://localhost:3001";
     upload := or_default (env !! "UPLOAD_URL") "http://localhost:3002";
     cron := or_default (env !! "CRON_URL") "http://localhost:3003" |}.

(** [process.env.NODE_ENV || 'test'] *)
Definition environment (env : gmap string string) : string :=
  or_default (env !! "NODE_ENV") "test".

End AuthSetup.

(** * Reference functions

    What each loop computes, written as plain functions of the way the round
    trips end; the lemmas below show that the loops compute them. *)

Import TestHelpers MultiApp.

Section WithReport.

(** The properties hold whatever the assertion library writes in the
    messages of its errors. *)
Context {reporting : Report}.

(** Whether a round trip ended with a status in [200, 400). *)
Definition succeeded (a : Attempt) : bool :=
  match a with
  | Responded status _ => in_success_range status
  | Rejected _ _ => false
  end.

Definition elapsed_of (a : Attempt) : N :=
  match a with
  | Responded _ elapsed => elapsed
  | Rejected _ elapsed => elapsed
  end.

(** The world after one more round trip. *)
Definition after (w : World) (a : Attempt) : World :=
  mkWorld (now w + Z.of_N (elapsed_of a)) (S (calls w)).

(** The results that the accessibility loop appends when its first round
    trip is the [k]-th one. *)
Fixpoint observations (net : Network) (apps : list AppUrl) (k : nat)
    : list AccessResult :=
  match apps with
  | [] => []
  | app :: rest => observe app (net k (url app)) :: observations net rest (S k)
  end.

(** The counters after the loop body has run for one endpoint whose round
    trip ended as [a]. *)
Definition health_step (h : Health) (endpoint : Endpoint) (a : Attempt) : Health :=
  match a with
  | Responded status elapsed =>
      if is_api (e_type endpoint) then
        if in_success_range status then
          mkHealth (accessibleApps h + 1) (apiEndpoints h + 1) (totalTests h + 1)
            (failedTests h) (totalTime h + Z.of_N elapsed)
        else
          mkHealth (accessibleApps h) (apiEndpoints h) (totalTests h + 1)
            (failedTests h + 1) (totalTime h + Z.of_N elapsed)
      else
        mkHealth (accessibleApps h + 1) (apiEndpoints h) (totalTests h + 1)
          (failedTests h) (totalTime h + Z.of_N elapsed)
  | Rejected _ _ =>
      mkHealth (accessibleApps h) (apiEndpoints h) (totalTests h + 1)
        (failedTests h + 1) (totalTime h)
  end.

Fixpoint health_steps (net : Network) (endpoints : list Endpoint) (k : nat)
    (h : Health) : Health :=
  match endpoints with
  | [] => h
  | endpoint :: rest =>
      health_steps net rest (S k) (health_step h endpoint (net k (e_url endpoint)))
  end.

(** The number of runs that the health loop counts as accessible. *)
Definition count_accessible (runs : list (Endpoint * Attempt)) : nat :=
  length (List.filter (fun run => counted_accessible (fst run) (snd run)) runs).

Definition run_all (runs : list (Endpoint * Attempt)) (h : Health) : Health :=
  fold_left (fun h run => health_step h (fst run) (snd run)) runs h.

(** The sum, taken in order from [start], of the scores of the entries that
    are not attributed to recent input. *)
Definition unexpected_shift_sum (start : Q) (entries : list LayoutShift) : Q :=
  fold_left Qplus
    (map value (List.filter (fun entry => negb (hadRecentInput entry)) entries))
    start.

(** The endpoints of the health loop paired with the way their round trips
    end, when the first round trip is the [k]-th one. *)
Fixpoint attempts (net : Network) (endpoints : list Endpoint) (k : nat)
    : list (Endpoint * Attempt) :=
  match endpoints with
  | [] => []
  | endpoint :: rest =>
      (endpoint, net k (e_url endpoint)) :: attempts net rest (S k)
  end.

(** The milliseconds of the round trips that were answered, and those of
    all the round trips. *)
Definition answered_time (runs : list (Endpoint * Attempt)) : Z :=
  fold_right
    (fun run acc =>
       match snd run with
       | Responded _ elapsed => Z.of_N elapsed + acc
       | Rejected _ _ => acc
       end) 0 runs.

Definition spent_time (runs : list (Endpoint * Attempt)) : Z :=
  fold_right (fun run acc => Z.of_N (elapsed_of (snd run)) + acc) 0 runs.

(** The number of [api] endpoints whose status lies in [200, 400). *)
Definition count_api_ok (runs : list (Endpoint * Attempt)) : nat :=
  length (List.filter
            (fun run => is_api (e_type (fst run)) && succeeded (snd run)) runs).

(** The error of [expect(received).toBeLessThan(expected)], if any. *)
Definition less_than_failure (received expected : Q) : option Thrown :=
  match (received ?= expected)%Q with
  | Lt => None
  | _ => Some (failed_expect "toBeLessThan"
                 (Number (Finite received)) (Number (Finite expected)))
  end.

(** The error that 'Verify performance thresholds' throws, if any: that of
    the LCP check, else that of the CLS check. *)
Definition thresholds_failure (m : Metrics) : option Thrown :=
  let lcp_failure :=
    match m_lcp m with
    | Some lcp =>
        if truthy lcp && positive lcp then less_than_failure lcp LCP else None
    | None => None
    end in
  match lcp_failure with
  | Some e => Some e
  | None =>
      match m_cls m with
      | Some cls => less_than_failure cls CLS
      | None => None
      end
  end.

(** The entries that the body of the performance loop appends for one
    application, given how its navigation ends and what its page reports. *)
Definition perf_entries (app : AppUrl) (a : Attempt) (pb : PageBehaviour)
    : list PerfEntry :=
  let failure e :=
    mkPerfEntry (name app) None None None
      (Some (message_or "Performance test failed" e)) in
  match a with
  | Rejected e _ => [failure e]
  | Responded _ _ =>
      match load_state pb with
      | Some e => [failure e]
      | None =>
          let metrics := measure pb in
          mkPerfEntry (name app) (m_lcp metrics) (m_cls metrics)
            (m_fcp metrics) None
          :: match thresholds_failure metrics with
             | Some e => [failure e]
             | None => []
             end
      end
  end.

Fixpoint perf_results (net : Network) (pages : string -> PageBehaviour)
    (apps : list AppUrl) (k : nat) : list PerfEntry :=
  match apps with
  | [] => []
  | app :: rest =>
      perf_entries app (net k (url app)) (pages (url app))
      ++ perf_results net pages rest (S k)
  end.

(** The entries that the body of the API loop appends for one test, given
    how its round trip ends and what the response carries. *)
Definition api_entries (apiTest : ApiTest) (a : Attempt) (content : Content)
    : list ApiResult :=
  let failure e :=
    mkApiResult (t_name apiTest) (t_url apiTest) None None false
      (Some (message_or "API test failed" e)) in
  match a with
  | Rejected e _ => [failure e]
  | Responded status _ =>
      let success := api_success apiTest status content in
      mkApiResult (t_name apiTest) (t_url apiTest) (Some status)
        (contentType content) success None
      :: if success then
           if String.eqb (expectedContentType apiTest) "application/json" then
             match json_error content with
             | Some e => [failure e]
             | None => []
             end
           else if 0 <? Z.of_nat (String.length (text content)) then []
           else [failure (failed_expect "toBeGreaterThan"
                            (Number (Finite (inject_Z
                               (Z.of_nat (String.length (text content))))))
                            (Number (Finite (inject_Z 0))))]
         else []
  end.

Fixpoint api_results (net : Network) (contents : Contents)
    (tests : list ApiTest) (k : nat) : list ApiResult :=
  match tests with
  | [] => []
  | apiTest :: rest =>
      api_entries apiTest (net k (t_url apiTest)) (contents k (t_url apiTest))
      ++ api_results net contents rest (S k)
  end.

(** Whether the [k]-th round trip, to [url], finds a feed: status 200, a
    content type that mentions xml or rss, and a body with both markers. *)
Definition feed_at (net : Network) (contents : Contents) (k : nat)
    (url : string) : bool :=
  match net k url with
  | Responded status _ =>
      (status =? 200)
      && (from_option (fun ct => includes ct "xml") false
            (contentType (contents k url))
          || from_option (fun ct => includes ct "rss") false
               (contentType (contents k url)))
      && includes (text (contents k url)) "<rss"
      && includes (text (contents k url)) "<channel>"
  | Rejected _ _ => false
  end.

(** The number of requests of the RSS test: up to the first feed found. *)
Fixpoint rss_requests (net : Network) (contents : Contents) (blogUrl : string)
    (paths : list string) (k : nat) : nat :=
  match paths with
  | [] => 0
  | path :: rest =>
      if feed_at net contents k (blogUrl +:+ path) then 1
      else S (rss_requests net contents blogUrl rest (S k))
  end.

(** The two provisos on the environment of [waitForCondition]: every
    evaluation of the condition settles, and every timer fires no earlier
    than the delay it was asked for. *)
Definition settles (env : WaitEnv) : Prop :=
  forall k, settled (condition env k) <> Pending.

Definition timers_respect (env : WaitEnv) (interval : Z) : Prop :=
  forall k, interval <= Z.of_N (timer env interval k).

(** The milliseconds between the reading of [startTime] and the [k]-th test
    of the loop guard of [waitForCondition], when the evaluations before it
    all gave [false]. *)
Fixpoint elapsed_before (env : WaitEnv) (interval : Z) (k : nat) : Z :=
  match k with
  | O => Z.of_N (first_gap env)
  | S j =>
      elapsed_before env interval j + Z.of_N (took (condition env j))
      + Z.of_N (timer env interval j)
  end.

(** * Properties *)

(** ** Running the loops *)

Lemma in_success_range_spec (status : Z) :
  in_success_range status = true <-> 200 <= status < 400.
Proof. unfold in_success_range. rewrite andb_true_iff. lia. Qed.

Lemma accessibility_body_run net app w results :
  accessibility_body net app w results =
  (Ok tt, after w (net (calls w) (url app)),
   results ++ [observe app (net (calls w) (url app))]).
Proof.
  unfold accessibility_body, try_catch, bind, round_trip, Date_now, modify, after.
  destruct (net (calls w) (url app)) as [status elapsed | e elapsed]; cbn.
  - do 4 f_equal. unfold observe. f_equal. lia.
  - reflexivity.
Qed.

Lemma accessibility_loop_run net apps : forall w results,
  exists w', for_of apps (accessibility_body net) w results =
             (Ok tt, w', results ++ observations net apps (calls w)).
Proof.
  induction apps as [|app rest IH]; intros w results; cbn [for_of observations].
  - exists w. unfold ret. by rewrite app_nil_r.
  - unfold bind. rewrite accessibility_body_run.
    destruct (IH (after w (net (calls w) (url app)))
                 (results ++ [observe app (net (calls w) (url app))])) as [w' Hw'].
    exists w'. rewrite Hw'. cbn [after calls]. by rewrite <- app_assoc.
Qed.

Lemma observations_lookup net apps : forall k i app,
  apps !! i = Some app ->
  observations net apps k !! i = Some (observe app (net (k + i)%nat (url app))).
Proof.
  induction apps as [|a rest IH]; intros k i app Hi; [done|].
  destruct i as [|i]; cbn [observations].
  - injection Hi as ->. by rewrite Nat.add_0_r.
  - change (observations net rest (S k) !! i =
            Some (observe app (net (k + S i)%nat (url app)))).
    rewrite (IH (S k) i app Hi). do 3 f_equal. lia.
Qed.

Lemma observations_length net apps : forall k,
  length (observations net apps k) = length apps.
Proof. induction apps as [|a rest IH]; intros k; cbn; [done | by rewrite IH]. Qed.

Lemma probe_apps_run net apps w :
  exists w', probe_apps net apps w = (Ok tt, w', observations net apps (calls w)).
Proof.
  unfold probe_apps. destruct (accessibility_loop_run net apps w []) as [w' H].
  exists w'. by rewrite H.
Qed.

Lemma probe_apps_results net apps w :
  snd (probe_apps net apps w) = observations net apps (calls w).
Proof. destruct (probe_apps_run net apps w) as [w' ->]. reflexivity. Qed.

(** In the accessibility test, [accessible] holds exactly when the recorded
    status lies in [200, 400); a rejected request records status 0. *)
Lemma observe_accessible_iff app a :
  r_accessible (observe app a) = true <-> 200 <= r_status (observe app a) < 400.
Proof.
  destruct a as [status elapsed | e elapsed]; cbn.
  - apply in_success_range_spec.
  - split; [discriminate | lia].
Qed.

Lemma observe_accessible_succeeded app a :
  r_accessible (observe app a) = succeeded a.
Proof. by destruct a. Qed.

Lemma health_body_run net endpoint w h :
  health_body net endpoint w h =
  (Ok tt, after w (net (calls w) (e_url endpoint)),
   health_step h endpoint (net (calls w) (e_url endpoint))).
Proof.
  unfold health_body, try_catch, bind, round_trip, Date_now, modify, after,
    health_step.
  cbn [now calls totalTests accessibleApps apiEndpoints failedTests totalTime].
  destruct (e_type endpoint); cbn [is_api];
    destruct (net (calls w) (e_url endpoint)) as [status elapsed | e elapsed];
    cbn [now calls elapsed_of]; try reflexivity.
  - do 3 f_equal. lia.
  - destruct (in_success_range status);
      cbn [now calls totalTests accessibleApps apiEndpoints failedTests totalTime];
      do 3 f_equal; lia.
Qed.

Lemma health_loop_steps net endpoints : forall w h,
  exists w', for_of endpoints (health_body net) w h =
             (Ok tt, w', health_steps net endpoints (calls w) h).
Proof.
  induction endpoints as [|endpoint rest IH]; intros w h; cbn [for_of health_steps].
  - by exists w.
  - unfold bind. rewrite health_body_run.
    destruct (IH (after w (net (calls w) (e_url endpoint)))
                 (health_step h endpoint (net (calls w) (e_url endpoint))))
      as [w' Hw'].
    exists w'. by rewrite Hw'.
Qed.

Lemma health_loop_ok net endpoints w :
  exists w', health_loop net endpoints w =
             (Ok tt, w', health_steps net endpoints (calls w) health0).
Proof. apply health_loop_steps. Qed.

Lemma health_of_steps net endpoints w :
  health_of net endpoints w = health_steps net endpoints (calls w) health0.
Proof.
  unfold health_of. destruct (health_loop_ok net endpoints w) as [w' ->].
  reflexivity.
Qed.

(** With a scripted network the [i]-th endpoint meets the [i]-th attempt. *)
Lemma health_steps_scripted (runs : list (Endpoint * Attempt)) :
  forall (done : list Attempt) h,
  health_steps (scripted (done ++ map snd runs)) (map fst runs) (length done) h =
  fold_left (fun h run => health_step h (fst run) (snd run)) runs h.
Proof.
  induction runs as [|[endpoint a] rest IH]; intros done h; [reflexivity|].
  cbn [map fst snd health_steps fold_left].
  replace (scripted (done ++ a :: map snd rest) (length done) (e_url endpoint))
    with a.
  - specialize (IH (done ++ [a]) (health_step h endpoint a)).
    rewrite <- app_assoc, length_app in IH. cbn in IH.
    rewrite Nat.add_1_r in IH. exact IH.
  - unfold scripted. rewrite app_nth2 by lia. by rewrite Nat.sub_diag.
Qed.

Lemma health_run_fold (runs : list (Endpoint * Attempt)) :
  health_run runs =
  fold_left (fun h run => health_step h (fst run) (snd run)) runs health0.
Proof.
  unfold health_run. rewrite health_of_steps. cbn [calls].
  apply (health_steps_scripted runs []).
Qed.

Lemma fold_health_counts (runs : list (Endpoint * Attempt)) : forall h,
  accessibleApps (run_all runs h) =
    accessibleApps h + Z.of_nat (count_accessible runs) /\
  totalTests (run_all runs h) = totalTests h + Z.of_nat (length runs) /\
  failedTests (run_all runs h) =
    failedTests h + Z.of_nat (length runs) - Z.of_nat (count_accessible runs).
Proof.
  unfold count_accessible, run_all.
  induction runs as [|[endpoint a] rest IH]; intros h;
    cbn [fold_left List.filter fst snd].
  - cbn. lia.
  - specialize (IH (health_step h endpoint a)).
    destruct IH as (Ha & Ht & Hf). rewrite Ha, Ht, Hf. clear Ha Ht Hf.
    cbn [fst snd]. unfold health_step, counted_accessible.
    destruct a as [status elapsed | e elapsed];
      [destruct (is_api (e_type endpoint)); [destruct (in_success_range status)|]|];
      cbn [accessibleApps totalTests failedTests length]; lia.
Qed.

Lemma health_run_counts (runs : list (Endpoint * Attempt)) :
  accessibleApps (health_run runs) = Z.of_nat (count_accessible runs) /\
  totalTests (health_run runs) = Z.of_nat (length runs) /\
  failedTests (health_run runs) =
    Z.of_nat (length runs) - Z.of_nat (count_accessible runs).
Proof.
  rewrite health_run_fold.
  destruct (fold_health_counts runs health0) as (Ha & Ht & Hf).
  unfold run_all in Ha, Ht, Hf.
  rewrite Ha, Ht, Hf. cbn. lia.
Qed.

Lemma count_accessible_perm (runs runs' : list (Endpoint * Attempt)) :
  Permutation runs runs' -> count_accessible runs = count_accessible runs'.
Proof.
  unfold count_accessible.
  induction 1 as [| x l l' _ IH | x y l | l l' l'' _ IH1 _ IH2]; cbn.
  - reflexivity.
  - destruct (counted_accessible (fst x) (snd x)); cbn; by rewrite IH.
  - destruct (counted_accessible (fst x) (snd x)),
      (counted_accessible (fst y) (snd y)); reflexivity.
  - by rewrite IH1.
Qed.


Lemma verify_availability_run net w :
  exists w', GlobalSetup.verify_availability net w tt = (Ok tt, w', tt).
Proof.
  unfold GlobalSetup.verify_availability, try_catch, bind, round_trip, ret.
  destruct (net (calls w) "http://localhost:3000") as [s1 t1 | e1 t1];
    cbn [calls];
    match goal with
    | |- context [net ?k "http://localhost:3001"] =>
        destruct (net k "http://localhost:3001") as [s2 t2 | e2 t2]
    end; eauto.
Qed.

(** ** Classification by status (C1) *)

(** In the health check an endpoint of type [api] is counted accessible
    exactly when its status lies in [200, 400). *)
Lemma counted_accessible_api endpoint a :
  e_type endpoint = api -> counted_accessible endpoint a = succeeded a.
Proof. intros Ht. unfold counted_accessible. rewrite Ht. by destruct a. Qed.

(** An endpoint of type [web] is counted accessible whenever its navigation
    does not throw, whatever the status of the response. *)
Lemma counted_accessible_web endpoint status elapsed :
  e_type endpoint = web ->
  counted_accessible endpoint (Responded status elapsed) = true.
Proof. intros Ht. unfold counted_accessible. by rewrite Ht. Qed.

(** C1, at the failing input: the health check run on the single [web]
    endpoint 'API Root' whose navigation answers 404. The status is outside
    [200, 400), yet the loop counts the endpoint as accessible (no failed
    test, health score 100), where the [api] branch of the same loop and the
    accessibility test would have counted a failure. *)
Theorem health_check_counts_web_404_accessible :
  let root := mkEndpoint "API Root" "http://localhost:3000/api/" web in
  in_success_range 404 = false /\
  health_run [(root, Responded 404 120%N)] = mkHealth 1 0 1 0 120 /\
  healthScore_run [(root, Responded 404 120%N)] = Some (100 # 1)%Q /\
  r_accessible (observe (mkAppUrl "API Root" "http://localhost:3000/api/")
                  (Responded 404 120%N)) = false /\
  health_run [(mkEndpoint "API Root" "http://localhost:3000/api/" api,
               Responded 404 120%N)] = mkHealth 0 0 1 1 120.
Proof. repeat split; vm_compute; reflexivity. Qed.

(** ** The health score (C2) *)

Lemma healthScore_run_counts (runs : list (Endpoint * Attempt)) :
  healthScore_run runs =
  (fun q => q * 100)%Q <$>
    Js.div (Z.of_nat (count_accessible runs)) (Z.of_nat (length runs)).
Proof.
  unfold healthScore_run, healthScore.
  destruct (health_run_counts runs) as (-> & _ & _).
  by rewrite length_map.
Qed.

(** C2, counterexample: one endpoint, which passes. The number of passing
    verdicts divided by the number of verdicts is 1, the score is 100. *)
Lemma healthScore_of_one_passing_endpoint :
  let runs := [(mkEndpoint "Blog" "http://localhost:3000" web,
                Responded 200 80%N)] in
  count_accessible runs = 1%nat /\ length runs = 1%nat /\
  healthScore_run runs = Some (100 # 1)%Q /\
  ~ (100 # 1 == inject_Z 1 / inject_Z 1)%Q.
Proof.
  repeat split; try (vm_compute; reflexivity).
  intros H. vm_compute in H. discriminate H.
Qed.

(** C2, as amended: for every finite collection of probed endpoints the
    health score is the percentage of those counted accessible, that is 100
    times their number divided by the number of endpoints (not a number when
    there is no endpoint), and neither the score nor the error rate changes
    when the endpoints, with their outcomes, are taken in another order. *)
Theorem healthScore_percentage_order_independent
    (runs runs' : list (Endpoint * Attempt)) :
  Permutation runs runs' ->
  healthScore_run runs =
    match runs with
    | [] => None
    | _ :: _ =>
        Some (inject_Z (Z.of_nat (count_accessible runs))
              / inject_Z (Z.of_nat (length runs)) * 100)%Q
    end /\
  healthScore_run runs' = healthScore_run runs /\
  errorRate (health_run runs') = errorRate (health_run runs).
Proof.
  intros Hperm. split; [|split].
  - rewrite healthScore_run_counts. by destruct runs.
  - rewrite !healthScore_run_counts.
    by rewrite (count_accessible_perm _ _ Hperm), (Permutation_length Hperm).
  - unfold errorRate.
    destruct (health_run_counts runs) as (_ & -> & ->).
    destruct (health_run_counts runs') as (_ & -> & ->).
    by rewrite (count_accessible_perm _ _ Hperm), (Permutation_length Hperm).
Qed.

Lemma healthScore_percentage_order_independent_witness :
  let blog := (mkEndpoint "Blog" "http://localhost:3000" web, Responded 200 80%N) in
  let data := (mkEndpoint "API Data" "http://localhost:3000/api/data" api,
               Responded 503 15%N) in
  healthScore_run [blog; data] = Some (inject_Z 1 / inject_Z 2 * 100)%Q /\
  healthScore_run [data; blog] = healthScore_run [blog; data] /\
  errorRate (health_run [data; blog]) = errorRate (health_run [blog; data]).
Proof.
  intros blog data.
  apply (healthScore_percentage_order_independent [blog; data] [data; blog]).
  apply perm_swap.
Defined.

(** ** Unsuccessful probes (C4, C5) *)

Lemma probe_apps_lookup net apps w i app :
  apps !! i = Some app ->
  snd (probe_apps net apps w) !! i =
  Some (observe app (net (calls w + i)%nat (url app))).
Proof. intros Hi. rewrite probe_apps_results. by apply observations_lookup. Qed.

(** C4, counterexample: the only probe of the target answers 500. Its
    result is not accessible, and carries no error. *)
Lemma http_error_result_has_no_error :
  snd (probe_apps (scripted [Responded 500 35%N])
         [mkAppUrl "Blog" "http://localhost:3000"] (mkWorld 0 0)) =
  [mkAccessResult "Blog" "http://localhost:3000" 500 35 false None].
Proof. vm_compute. reflexivity. Qed.

(** C4, as amended: the result of a target whose probe did not succeed (the
    request was rejected, or the status is outside [200, 400)) has
    [accessible = false], whatever the response time; an error message is
    recorded exactly when the request was rejected. *)
Theorem unsuccessful_probe_not_accessible (net : Network) (apps : list AppUrl)
    (w : World) (i : nat) (app : AppUrl) :
  apps !! i = Some app ->
  succeeded (net (calls w + i)%nat (url app)) = false ->
  exists r, snd (probe_apps net apps w) !! i = Some r /\
    r_name r = name app /\
    r_accessible r = false /\
    (is_Some (r_error r) <->
     exists e elapsed, net (calls w + i)%nat (url app) = Rejected e elapsed).
Proof.
  intros Hi Hfail. eexists. split; [by apply probe_apps_lookup|].
  destruct (net (calls w + i)%nat (url app)) as [status elapsed | e elapsed];
    cbn in *.
  - repeat split; [done| |].
    + by intros [? ?].
    + by intros (? & ? & ?).
  - repeat split; eauto.
Qed.

Lemma unsuccessful_probe_not_accessible_witness :
  exists r,
    snd (probe_apps (scripted [Responded 200 20%N; Rejected NonError 3%N])
           [mkAppUrl "Blog" "http://localhost:3000";
            mkAppUrl "Express API" "http://localhost:3000"] (mkWorld 0 0))
      !! 1%nat = Some r /\
    r_name r = "Express API" /\
    r_accessible r = false /\
    (is_Some (r_error r) <->
     exists e elapsed,
       scripted [Responded 200 20%N; Rejected NonError 3%N] 1%nat
         "http://localhost:3000" = Rejected e elapsed).
Proof.
  apply (unsuccessful_probe_not_accessible
           (scripted [Responded 200 20%N; Rejected NonError 3%N])
           [mkAppUrl "Blog" "http://localhost:3000";
            mkAppUrl "Express API" "http://localhost:3000"]
           (mkWorld 0 0) 1 (mkAppUrl "Express API" "http://localhost:3000"));
    reflexivity.
Defined.

(** C5, counterexample: the request of the only target is cut off after
    30000 ms. The recorded response time is 0, not 30000. *)
Lemma timed_out_result_has_zero_time :
  snd (probe_apps (scripted [timed_out 30000 "Timeout 30000ms exceeded."])
         [mkAppUrl "Blog" "http://localhost:3000"] (mkWorld 0 0)) =
  [mkAccessResult "Blog" "http://localhost:3000" 0 0 false
     (Some "Timeout 30000ms exceeded.")] /\
  0 <> Z.of_N 30000.
Proof. split; [vm_compute; reflexivity | discriminate]. Qed.

(** C5, as amended: a probe whose request exceeds its timeout is recorded
    like any rejected request: status 0, response time 0 (the timeout value
    is not recorded), not accessible, with the message of the rejection as
    the error. *)
Theorem timed_out_probe_recorded_as_rejection (net : Network)
    (apps : list AppUrl) (w : World) (i : nat) (app : AppUrl)
    (timeout : N) (message : string) :
  apps !! i = Some app ->
  net (calls w + i)%nat (url app) = timed_out timeout message ->
  snd (probe_apps net apps w) !! i =
  Some (mkAccessResult (name app) (url app) 0 0 false (Some message)).
Proof.
  intros Hi Hnet. rewrite (probe_apps_lookup net apps w i app Hi), Hnet.
  reflexivity.
Qed.

Lemma timed_out_probe_recorded_as_rejection_witness :
  snd (probe_apps (scripted [timed_out 30000 "Timeout 30000ms exceeded."])
         [mkAppUrl "Blog" "http://localhost:3000"] (mkWorld 0 0)) !! 0%nat =
  Some (mkAccessResult "Blog" "http://localhost:3000" 0 0 false
          (Some "Timeout 30000ms exceeded.")).
Proof.
  apply (timed_out_probe_recorded_as_rejection
           (scripted [timed_out 30000 "Timeout 30000ms exceeded."])
           [mkAppUrl "Blog" "http://localhost:3000"] (mkWorld 0 0) 0
           (mkAppUrl "Blog" "http://localhost:3000") 30000
           "Timeout 30000ms exceeded."); reflexivity.
Defined.

(** ** Cumulative layout shift (C6) *)

Lemma accumulate_shifts_sum (entries : list LayoutShift) : forall start,
  accumulate_shifts start entries = unexpected_shift_sum start entries.
Proof.
  unfold accumulate_shifts, unexpected_shift_sum.
  induction entries as [|entry rest IH]; intros start; [reflexivity|].
  cbn [fold_left List.filter]. destruct (hadRecentInput entry); cbn; apply IH.
Qed.

Lemma accumulate_shifts_app (xs ys : list LayoutShift) (start : Q) :
  accumulate_shifts start (xs ++ ys) =
  accumulate_shifts (accumulate_shifts start xs) ys.
Proof. unfold accumulate_shifts. apply fold_left_app. Qed.

Lemma fold_on_shift (batches : list (list LayoutShift)) : forall clsValue cls,
  fold_left on_shift batches (clsValue, cls) =
  (accumulate_shifts clsValue (concat batches),
   match batches with
   | [] => cls
   | _ :: _ => Some (accumulate_shifts clsValue (concat batches))
   end).
Proof.
  induction batches as [|batch rest IH]; intros clsValue cls; [reflexivity|].
  cbn [fold_left concat]. unfold on_shift at 2. cbn [fst].
  rewrite IH, accumulate_shifts_app. by destruct rest.
Qed.

(** In the cross-application performance test [metrics.cls] is absent when
    no layout-shift callback ran, and otherwise the sum over all the entries
    reported before the timer, entries with recent input left out. *)
Lemma measure_cls_all_batches (pb : PageBehaviour) :
  m_cls (measure pb) =
  match shift_batches pb with
  | [] => None
  | _ :: _ => Some (unexpected_shift_sum 0 (concat (shift_batches pb)))
  end.
Proof.
  unfold measure. cbn [m_cls]. rewrite fold_on_shift. cbn [snd].
  destruct (shift_batches pb); [reflexivity|]. by rewrite accumulate_shifts_sum.
Qed.

Lemma fold_on_shift_resolve_settled (batches : list (list LayoutShift)) :
  forall clsValue v,
  snd (fold_left Blog.on_shift_resolve batches (clsValue, Some v)) = Some v.
Proof.
  induction batches as [|batch rest IH]; intros clsValue v; [reflexivity|].
  cbn [fold_left]. unfold Blog.on_shift_resolve at 2. cbn [fst snd Js.resolve].
  apply IH.
Qed.

(** In the Core Web Vitals test the promise is settled by the first
    callback: its value is the sum over the first batch only. *)
Lemma blog_measure_cls_first_batch (first : list LayoutShift)
    (rest : list (list LayoutShift)) :
  Blog.measure_cls (first :: rest) = Some (unexpected_shift_sum 0 first).
Proof.
  unfold Blog.measure_cls. cbn [fold_left].
  unfold Blog.on_shift_resolve at 2 4. cbn [fst snd Js.resolve].
  rewrite fold_on_shift_resolve_settled. cbn [Js.resolve].
  by rewrite accumulate_shifts_sum.
Qed.

Lemma blog_measure_cls_no_batch : Blog.measure_cls [] = Some 0%Q.
Proof. reflexivity. Qed.

(** C6, at the failing input: two layout shifts without recent input, of
    scores 0.05 and 0.2, reported in two callbacks within the window. The
    sum over the reported entries is 0.25, which is what the
    cross-application performance test measures; the Core Web Vitals test
    yields 0.05, the sum at the end of the first callback. *)
Theorem core_web_vitals_cls_misses_later_batches :
  let batches := [[mkLayoutShift (5 # 100) false];
                  [mkLayoutShift (20 # 100) false]] in
  unexpected_shift_sum 0 (concat batches) = (0 + (5 # 100) + (20 # 100))%Q /\
  m_cls (measure (mkPageBehaviour None [] [] batches)) =
    Some (0 + (5 # 100) + (20 # 100))%Q /\
  Blog.measure_cls batches = Some (0 + (5 # 100))%Q /\
  ~ (0 + (5 # 100) == 0 + (5 # 100) + (20 # 100))%Q.
Proof.
  repeat split; try reflexivity.
  intros H. vm_compute in H. discriminate H.
Qed.

(** ** waitForCondition (C10) *)

Lemma ceil_div_covers (timeout interval : Z) :
  0 < interval -> timeout <= Z.of_nat (ceil_div timeout interval) * interval.
Proof.
  intros Hi. unfold ceil_div.
  pose proof (Z.div_mod (timeout + interval - 1) interval) as Hdm.
  pose proof (Z.mod_pos_bound (timeout + interval - 1) interval Hi) as Hm.
  destruct (Z_le_gt_dec 0 ((timeout + interval - 1) / interval)) as [Hq | Hq].
  - rewrite Z2Nat.id by exact Hq. nia.
  - replace (Z.to_nat ((timeout + interval - 1) / interval)) with 0%nat by lia.
    nia.
Qed.

(** The loop invariant: when the timers fire no earlier than asked, at
    least [k] intervals have passed after [k] evaluations, so that at most
    [n] evaluations fit below a timeout of at most [n] intervals. *)
Lemma wait_loop_bounded (env : WaitEnv) (timeout interval startTime : Z) (n : nat) :
  0 < interval ->
  settles env ->
  timers_respect env interval ->
  timeout <= Z.of_nat n * interval ->
  forall fuel t k,
  Z.of_nat k * interval <= t - startTime ->
  (1 <= fuel)%nat ->
  (n + 1 <= fuel + k)%nat ->
  exists r, wait_loop fuel env timeout interval startTime t k = Some r /\
    (k <= evaluations r)%nat /\
    (evaluations r <= Nat.max k n)%nat /\
    (answer r = Ok true ->
     exists j, (k <= j < evaluations r)%nat /\
               settled (condition env j) = Fulfilled true).
Proof.
  intros Hi Hsettles Htimers Hn.
  induction fuel as [|fuel IH]; intros t k Hk Hfuel Hroom; [lia|].
  cbn [wait_loop]. destruct (t - startTime <? timeout) eqn:Hlt.
  - apply Z.ltb_lt in Hlt. assert (Hkn : (k < n)%nat) by nia.
    pose proof (Hsettles k) as Hnp. pose proof (Htimers k) as Htk.
    destruct (settled (condition env k)) as [[|]|e|] eqn:Hs; [| | |done].
    + eexists. split; [reflexivity|]. cbn. repeat split; [lia|lia|].
      intros _. exists k. split; [lia | exact Hs].
    + destruct (IH (t + Z.of_N (took (condition env k))
                    + Z.of_N (timer env interval k)) (S k))
        as (r & Hr & Hge & Hle & Htrue).
      * lia.
      * lia.
      * lia.
      * exists r. split; [exact Hr|]. repeat split; [lia|lia|].
        intros Hans. destruct (Htrue Hans) as (j & Hj & Hsj).
        exists j. split; [lia | exact Hsj].
    + eexists. split; [reflexivity|]. cbn. repeat split; [lia|lia|discriminate].
  - eexists. split; [reflexivity|]. cbn. repeat split; [lia|lia|discriminate].
Qed.

(** A wait whose condition never settles never returns. *)
Lemma waitForCondition_pending_never_returns (env : WaitEnv)
    (timeout interval startTime : Z) (fuel : nat) :
  Z.of_N (first_gap env) < timeout ->
  settled (condition env 0) = Pending ->
  waitForCondition fuel env timeout interval startTime = None.
Proof.
  intros Hgap Hp. unfold waitForCondition. destruct fuel as [|fuel]; [reflexivity|].
  cbn [wait_loop].
  replace (startTime + Z.of_N (first_gap env) - startTime <? timeout) with true
    by (symmetry; apply Z.ltb_lt; lia).
  by rewrite Hp.
Qed.

(** C10, counterexample: a timeout of 10 ms, an interval of 2147483648 ms,
    for which Node's timers fire after 1 ms, and a condition that is always
    [false] at once. The condition is evaluated 10 times, where
    [ceil(timeout / interval) + 1] is 2. *)
Lemma waitForCondition_exceeds_bound :
  let env := mkWaitEnv 0 (fun _ => mkEvaluation (Fulfilled false) 0)
               (fun _ _ => 1%N) in
  waitForCondition 20 env 10 2147483648 1700000000000 =
    Some (mkWaitResult (Ok false) 10) /\
  (ceil_div 10 2147483648 + 1 = 2)%nat.
Proof. split; vm_compute; reflexivity. Qed.

(** C10, as amended: for a condition whose evaluations all settle, a
    positive interval and timers that fire no earlier than asked, the loop
    ends (any fuel above [ceil(timeout / interval)] is enough), after at most
    [ceil(timeout / interval) + 1] evaluations of the condition; it returns
    [true] only if one of these evaluations gave [true]; and for a timeout
    of 0 or less it returns [false] without any evaluation. *)
Theorem waitForCondition_terminates (env : WaitEnv)
    (timeout interval startTime : Z) (fuel : nat) :
  0 < interval ->
  settles env ->
  timers_respect env interval ->
  (ceil_div timeout interval + 1 <= fuel)%nat ->
  exists r, waitForCondition fuel env timeout interval startTime = Some r /\
    (evaluations r <= ceil_div timeout interval + 1)%nat /\
    (answer r = Ok true ->
     exists j, (j < evaluations r)%nat /\
               settled (condition env j) = Fulfilled true) /\
    (timeout <= 0 -> r = mkWaitResult (Ok false) 0).
Proof.
  intros Hi Hsettles Htimers Hfuel. unfold waitForCondition.
  destruct (wait_loop_bounded env timeout interval startTime
              (ceil_div timeout interval) Hi Hsettles Htimers
              (ceil_div_covers _ _ Hi)
              fuel (startTime + Z.of_N (first_gap env)) 0%nat)
    as (r & Hr & _ & Hle & Htrue); [lia | lia | lia |].
  exists r. split; [exact Hr|]. repeat split.
  - lia.
  - intros Hans. destruct (Htrue Hans) as (j & Hj & Hsj).
    exists j. split; [lia | exact Hsj].
  - intros Ht. destruct fuel as [|fuel]; [lia|]. cbn [wait_loop] in Hr.
    replace (startTime + Z.of_N (first_gap env) - startTime <? timeout)
      with false in Hr; [congruence|].
    symmetry. apply Z.ltb_ge. lia.
Qed.

Lemma waitForCondition_terminates_witness :
  let env := mkWaitEnv 0
               (fun k => mkEvaluation (Fulfilled (3 <=? k)%nat) 40)
               (fun interval _ => (Z.to_N interval + 2)%N) in
  exists r, waitForCondition 25 env 10000 500 1700000000000 = Some r /\
    (evaluations r <= ceil_div 10000 500 + 1)%nat /\
    (answer r = Ok true ->
     exists j, (j < evaluations r)%nat /\
               settled (condition env j) = Fulfilled true) /\
    (10000 <= 0 -> r = mkWaitResult (Ok false) 0).
Proof.
  intros env.
  apply (waitForCondition_terminates env 10000 500 1700000000000 25).
  - lia.
  - intros k. discriminate.
  - intros k. vm_compute. discriminate.
  - vm_compute. lia.
Defined.

(** ** The default configuration (C9) *)

(** C9: when none of the four variables is set, every application gets the
    URL http://localhost:3000: the four targets of the accessibility test
    have pairwise different names and one and the same URL. *)
Theorem default_config_single_endpoint (env : gmap string string) :
  env !! "BLOG_URL" = None ->
  env !! "API_URL" = None ->
  env !! "UPLOAD_URL" = None ->
  env !! "CRON_URL" = None ->
  DEFAULT_CONFIG env =
    mkTestConfig "http://localhost:3000" "http://localhost:3000"
      "http://localhost:3000" "http://localhost:3000" /\
  map url (appUrls (DEFAULT_CONFIG env)) = replicate 4 "http://localhost:3000" /\
  NoDup (map name (appUrls (DEFAULT_CONFIG env))) /\
  ~ NoDup (map url (appUrls (DEFAULT_CONFIG env))).
Proof.
  intros Hb Ha Hu Hc. unfold DEFAULT_CONFIG. rewrite Hb, Ha, Hu, Hc.
  cbn [or_default appUrls map name url blogUrl apiUrl uploadUrl cronUrl].
  repeat split.
  - apply NoDup_ListNoDup. repeat constructor; cbn; intuition discriminate.
  - intros Hnd. apply NoDup_cons_1_1 in Hnd. apply Hnd. left.
Qed.

Lemma default_config_single_endpoint_witness :
  DEFAULT_CONFIG ∅ =
    mkTestConfig "http://localhost:3000" "http://localhost:3000"
      "http://localhost:3000" "http://localhost:3000" /\
  map url (appUrls (DEFAULT_CONFIG ∅)) = replicate 4 "http://localhost:3000" /\
  NoDup (map name (appUrls (DEFAULT_CONFIG ∅))) /\
  ~ NoDup (map url (appUrls (DEFAULT_CONFIG ∅))).
Proof.
  apply (default_config_single_endpoint ∅); apply lookup_empty.
Defined.

(** * Further properties of the helpers and of the tests *)

(** ** waitForCondition *)

(** What a finished loop tells about the evaluations it made. *)
Lemma wait_loop_trace (env : WaitEnv) (timeout interval startTime : Z) :
  forall fuel t k r,
  t - startTime = elapsed_before env interval k ->
  (forall j, (j < k)%nat ->
     settled (condition env j) = Fulfilled false /\
     elapsed_before env interval j < timeout) ->
  wait_loop fuel env timeout interval startTime t k = Some r ->
  (forall j, (j < evaluations r)%nat -> elapsed_before env interval j < timeout) /\
  match answer r with
  | Ok false =>
      (forall j, (j < evaluations r)%nat ->
         settled (condition env j) = Fulfilled false) /\
      timeout <= elapsed_before env interval (evaluations r)
  | Ok true =>
      exists n, evaluations r = S n /\
        (forall j, (j < n)%nat -> settled (condition env j) = Fulfilled false) /\
        settled (condition env n) = Fulfilled true
  | Throw e =>
      exists n, evaluations r = S n /\
        (forall j, (j < n)%nat -> settled (condition env j) = Fulfilled false) /\
        settled (condition env n) = Failed e
  end.
Proof.
  induction fuel as [|fuel IH]; intros t k r Ht Hprev Hrun; [discriminate|].
  cbn [wait_loop] in Hrun. destruct (t - startTime <? timeout) eqn:Hlt.
  - apply Z.ltb_lt in Hlt.
    assert (Hstart : forall j, (j < S k)%nat ->
                       elapsed_before env interval j < timeout).
    { intros j Hj. destruct (decide (j = k)) as [->|Hne]; [lia|].
      apply Hprev. lia. }
    assert (Hfalse : forall j, (j < k)%nat ->
                       settled (condition env j) = Fulfilled false).
    { intros j Hj. by apply Hprev. }
    destruct (settled (condition env k)) as [[|]|e|] eqn:Hs; [| | |done].
    + injection Hrun as <-. cbn. split; [exact Hstart|]. eauto.
    + apply IH in Hrun; [exact Hrun| |].
      * cbn [elapsed_before]. lia.
      * intros j Hj. destruct (decide (j = k)) as [->|Hne].
        -- split; [exact Hs | lia].
        -- apply Hprev. lia.
    + injection Hrun as <-. cbn. split; [exact Hstart|]. eauto.
  - apply Z.ltb_ge in Hlt. injection Hrun as <-. cbn.
    split; [intros j Hj; by apply Hprev|].
    split; [intros j Hj; by apply Hprev | lia].
Qed.

Lemma waitForCondition_trace (env : WaitEnv) (timeout interval startTime : Z)
    (fuel : nat) (r : WaitResult) :
  waitForCondition fuel env timeout interval startTime = Some r ->
  (forall j, (j < evaluations r)%nat -> elapsed_before env interval j < timeout) /\
  match answer r with
  | Ok false =>
      (forall j, (j < evaluations r)%nat ->
         settled (condition env j) = Fulfilled false) /\
      timeout <= elapsed_before env interval (evaluations r)
  | Ok true =>
      exists n, evaluations r = S n /\
        (forall j, (j < n)%nat -> settled (condition env j) = Fulfilled false) /\
        settled (condition env n) = Fulfilled true
  | Throw e =>
      exists n, evaluations r = S n /\
        (forall j, (j < n)%nat -> settled (condition env j) = Fulfilled false) /\
        settled (condition env n) = Failed e
  end.
Proof.
  unfold waitForCondition. intros Hrun.
  apply (wait_loop_trace env timeout interval startTime fuel
           (startTime + Z.of_N (first_gap env)) 0%nat r);
    [cbn; lia | intros j Hj; lia | exact Hrun].
Qed.

Lemma elapsed_before_intervals (env : WaitEnv) (interval : Z) (k : nat) :
  timers_respect env interval ->
  Z.of_nat k * interval <= elapsed_before env interval k.
Proof.
  intros Htimers. induction k as [|k IH]; cbn [elapsed_before]; [lia|].
  pose proof (Htimers k). lia.
Qed.

(** X1: the wait ends at the first evaluation of the condition that does not
    give [false]. If it returns [true], the last evaluation gave [true] and
    all the earlier ones [false]; if it throws [e], the last evaluation
    rejected with [e] (the rejection is not caught) after [false]s only; if
    it returns [false], every evaluation gave [false]. *)
Theorem waitForCondition_first_decisive (env : WaitEnv)
    (timeout interval startTime : Z) (fuel : nat) (r : WaitResult) :
  waitForCondition fuel env timeout interval startTime = Some r ->
  match answer r with
  | Ok false =>
      forall j, (j < evaluations r)%nat ->
        settled (condition env j) = Fulfilled false
  | Ok true =>
      exists n, evaluations r = S n /\
        (forall j, (j < n)%nat -> settled (condition env j) = Fulfilled false) /\
        settled (condition env n) = Fulfilled true
  | Throw e =>
      exists n, evaluations r = S n /\
        (forall j, (j < n)%nat -> settled (condition env j) = Fulfilled false) /\
        settled (condition env n) = Failed e
  end.
Proof.
  intros Hrun. apply waitForCondition_trace in Hrun. destruct Hrun as [_ H].
  destruct (answer r) as [[|]|e]; [exact H | tauto | exact H].
Qed.

Lemma waitForCondition_first_decisive_witness :
  let env := mkWaitEnv 1
               (fun k => mkEvaluation
                           (if (k <? 2)%nat then Fulfilled false
                            else Failed (JsError "Error" "page closed")) 40)
               (fun interval _ => (Z.to_N interval + 2)%N) in
  exists n, 3%nat = S n /\
    (forall j, (j < n)%nat -> settled (condition env j) = Fulfilled false) /\
    settled (condition env n) = Failed (JsError "Error" "page closed").
Proof.
  intros env.
  apply (waitForCondition_first_decisive env 10000 500 1700000000000 25
           (mkWaitResult (Throw (JsError "Error" "page closed")) 3)).
  reflexivity.
Defined.

(** X2: for a positive interval and timers that fire no earlier than
    asked, the condition is evaluated at most [ceil(timeout / interval)]
    times, whatever the condition does and however late the timers fire
    (the default 10000 / 500 allows 20 evaluations). *)
Theorem waitForCondition_evaluations_bound (env : WaitEnv)
    (timeout interval startTime : Z) (fuel : nat) (r : WaitResult) :
  0 < interval ->
  timers_respect env interval ->
  waitForCondition fuel env timeout interval startTime = Some r ->
  (evaluations r <= ceil_div timeout interval)%nat.
Proof.
  intros Hi Htimers Hrun.
  apply waitForCondition_trace in Hrun. destruct Hrun as [Hlt _].
  destruct (evaluations r) as [|m]; [lia|].
  specialize (Hlt m (Nat.lt_succ_diag_r m)).
  pose proof (elapsed_before_intervals env interval m Htimers) as Hm.
  unfold ceil_div.
  pose proof (Z.div_mod (timeout + interval - 1) interval) as Hdm.
  pose proof (Z.mod_pos_bound (timeout + interval - 1) interval Hi) as Hr.
  assert (Z.of_nat m < (timeout + interval - 1) / interval) by nia.
  lia.
Qed.

Lemma waitForCondition_evaluations_bound_witness :
  (evaluations (mkWaitResult (Ok false) 20) <= ceil_div 10000 500)%nat.
Proof.
  apply (waitForCondition_evaluations_bound
           (mkWaitEnv 0 (fun _ => mkEvaluation (Fulfilled false) 0)
              (fun interval _ => Z.to_N interval))
           10000 500 1700000000000 25 (mkWaitResult (Ok false) 20)).
  - lia.
  - intros k. vm_compute. discriminate.
  - vm_compute. reflexivity.
Defined.

(** X3: the timeout is tested before each evaluation only. Every evaluation
    starts less than [timeout] ms after the start, and [false] is returned
    only once at least [timeout] ms have passed: the wait never gives up
    early, and it does not cut short an evaluation that is under way. *)
Theorem waitForCondition_deadline (env : WaitEnv)
    (timeout interval startTime : Z) (fuel : nat) (r : WaitResult) :
  waitForCondition fuel env timeout interval startTime = Some r ->
  (forall j, (j < evaluations r)%nat -> elapsed_before env interval j < timeout) /\
  (answer r = Ok false ->
   timeout <= elapsed_before env interval (evaluations r)).
Proof.
  intros Hrun. apply waitForCondition_trace in Hrun. destruct Hrun as [Hlt H].
  split; [exact Hlt|]. intros Hans. rewrite Hans in H. tauto.
Qed.

Lemma waitForCondition_deadline_witness :
  let env := mkWaitEnv 0 (fun _ => mkEvaluation (Fulfilled false) 700)
               (fun interval _ => (Z.to_N interval + 5)%N) in
  (forall j, (j < 2)%nat -> elapsed_before env 300 j < 2000) /\
  (Ok false = Ok false -> 2000 <= elapsed_before env 300 2).
Proof.
  intros env.
  apply (waitForCondition_deadline env 2000 300 1700000000000 10
           (mkWaitResult (Ok false) 2)).
  vm_compute. reflexivity.
Defined.

(** ** The configuration *)

Lemma or_default_nonempty (a : option string) (b : string) :
  b <> "" -> or_default a b <> "".
Proof.
  intros Hb. unfold or_default. destruct a as [s|]; [|exact Hb].
  destruct (String.eqb s "") eqn:E; [exact Hb|]. by apply String.eqb_neq.
Qed.

Lemma or_default_set (v b : string) : v <> "" -> or_default (Some v) b = v.
Proof. intros Hv. cbn. apply String.eqb_neq in Hv. by rewrite Hv. Qed.

Lemma or_default_agree (a : option string) (b1 b2 : string) :
  b1 <> b2 ->
  (or_default a b1 = or_default a b2 <-> exists v, a = Some v /\ v <> "").
Proof.
  intros Hb. unfold or_default. destruct a as [s|].
  - destruct (String.eqb s "") eqn:E.
    + apply String.eqb_eq in E. split; [done|]. intros (v & [= ->] & Hv). done.
    + apply String.eqb_neq in E. split; [eauto | done].
  - split; [done|]. by intros (v & ? & _).
Qed.

(** X4: whatever the environment holds, no URL of [DEFAULT_CONFIG] is empty:
    a variable that is set to the empty string falls back to the default as
    an unset one does. *)
Theorem default_config_urls_nonempty (env : gmap string string) :
  blogUrl (DEFAULT_CONFIG env) <> "" /\
  apiUrl (DEFAULT_CONFIG env) <> "" /\
  uploadUrl (DEFAULT_CONFIG env) <> "" /\
  cronUrl (DEFAULT_CONFIG env) <> "".
Proof. repeat split; by apply or_default_nonempty. Qed.

(** X5: setting one of the four variables to a non-empty value overrides the
    URL of its application and leaves the three other URLs as they were. *)
Theorem default_config_override (env : gmap string string) (v : string) :
  v <> "" ->
  DEFAULT_CONFIG (<["BLOG_URL" := v]> env) =
    mkTestConfig v (apiUrl (DEFAULT_CONFIG env)) (uploadUrl (DEFAULT_CONFIG env))
      (cronUrl (DEFAULT_CONFIG env)) /\
  DEFAULT_CONFIG (<["API_URL" := v]> env) =
    mkTestConfig (blogUrl (DEFAULT_CONFIG env)) v (uploadUrl (DEFAULT_CONFIG env))
      (cronUrl (DEFAULT_CONFIG env)) /\
  DEFAULT_CONFIG (<["UPLOAD_URL" := v]> env) =
    mkTestConfig (blogUrl (DEFAULT_CONFIG env)) (apiUrl (DEFAULT_CONFIG env)) v
      (cronUrl (DEFAULT_CONFIG env)) /\
  DEFAULT_CONFIG (<["CRON_URL" := v]> env) =
    mkTestConfig (blogUrl (DEFAULT_CONFIG env)) (apiUrl (DEFAULT_CONFIG env))
      (uploadUrl (DEFAULT_CONFIG env)) v.
Proof.
  intros Hv. unfold DEFAULT_CONFIG. cbn [blogUrl apiUrl uploadUrl cronUrl].
  repeat split;
    rewrite lookup_insert_eq, !lookup_insert_ne by done;
    by rewrite (or_default_set v _ Hv).
Qed.

Lemma default_config_override_witness :
  DEFAULT_CONFIG (<["BLOG_URL" := "https://blog.example.com"]> ∅) =
    mkTestConfig "https://blog.example.com" (apiUrl (DEFAULT_CONFIG ∅))
      (uploadUrl (DEFAULT_CONFIG ∅)) (cronUrl (DEFAULT_CONFIG ∅)) /\
  DEFAULT_CONFIG (<["API_URL" := "https://blog.example.com"]> ∅) =
    mkTestConfig (blogUrl (DEFAULT_CONFIG ∅)) "https://blog.example.com"
      (uploadUrl (DEFAULT_CONFIG ∅)) (cronUrl (DEFAULT_CONFIG ∅)) /\
  DEFAULT_CONFIG (<["UPLOAD_URL" := "https://blog.example.com"]> ∅) =
    mkTestConfig (blogUrl (DEFAULT_CONFIG ∅)) (apiUrl (DEFAULT_CONFIG ∅))
      "https://blog.example.com" (cronUrl (DEFAULT_CONFIG ∅)) /\
  DEFAULT_CONFIG (<["CRON_URL" := "https://blog.example.com"]> ∅) =
    mkTestConfig (blogUrl (DEFAULT_CONFIG ∅)) (apiUrl (DEFAULT_CONFIG ∅))
      (uploadUrl (DEFAULT_CONFIG ∅)) "https://blog.example.com".
Proof.
  apply (default_config_override ∅ "https://blog.example.com"). discriminate.
Defined.

(** X6: the application URLs that the setup project writes to the generated
    test data and those of [DEFAULT_CONFIG] come from the same variables but
    not from the same defaults: the blog URLs always agree, and the API,
    upload and cron URLs agree exactly when their variable is set to a
    non-empty value. *)
Theorem setup_urls_agree_with_default_config (env : gmap string string) :
  AuthSetup.blog (AuthSetup.generatedApps env) = blogUrl (DEFAULT_CONFIG env) /\
  (AuthSetup.api (AuthSetup.generatedApps env) = apiUrl (DEFAULT_CONFIG env) <->
   exists v, env !! "API_URL" = Some v /\ v <> "") /\
  (AuthSetup.upload (AuthSetup.generatedApps env) = uploadUrl (DEFAULT_CONFIG env) <->
   exists v, env !! "UPLOAD_URL" = Some v /\ v <> "") /\
  (AuthSetup.cron (AuthSetup.generatedApps env) = cronUrl (DEFAULT_CONFIG env) <->
   exists v, env !! "CRON_URL" = Some v /\ v <> "").
Proof.
  split; [reflexivity|].
  repeat split; try (apply or_default_agree; discriminate);
    apply or_default_agree; discriminate.
Qed.

(** ** The accessibility test as a whole *)

Lemma filter_nonempty {A : Type} (f : A -> bool) (l : list A) :
  (0 < length (List.filter f l))%nat <-> exists x, x ∈ l /\ f x = true.
Proof.
  induction l as [|a l IH]; cbn [List.filter].
  - split; [cbn; lia|]. intros (x & Hx & _). by apply elem_of_nil in Hx.
  - destruct (f a) eqn:Hfa.
    + split; [|cbn; lia]. intros _. exists a. split; [left | exact Hfa].
    + rewrite IH. split.
      * intros (x & Hx & Hfx). exists x. split; [by right | exact Hfx].
      * intros (x & Hx & Hfx). apply elem_of_cons in Hx as [->|Hx];
          [congruence | eauto].
Qed.

Lemma filter_length_le {A : Type} (f g : A -> bool) (l : list A) :
  (forall x, f x = true -> g x = true) ->
  (length (List.filter f l) <= length (List.filter g l))%nat.
Proof.
  intros Hfg. induction l as [|a l IH]; cbn [List.filter]; [lia|].
  destruct (f a) eqn:Hfa.
  - rewrite (Hfg a Hfa). cbn. lia.
  - destruct (g a); cbn; lia.
Qed.

Lemma expect_toBeGreaterThan_passes {L} (received expected : Z) (w : World) (l : L) :
  passes (expect_toBeGreaterThan received expected w l) <-> expected < received.
Proof.
  unfold passes, expect_toBeGreaterThan.
  destruct (expected <? received) eqn:E.
  - apply Z.ltb_lt in E. split; [done|]. intros _. by exists tt.
  - apply Z.ltb_ge in E. split; [|lia]. by intros [a Ha].
Qed.

Lemma observations_elem net apps k (r : AccessResult) :
  r ∈ observations net apps k <->
  exists i app, apps !! i = Some app /\
    r = observe app (net (k + i)%nat (url app)).
Proof.
  rewrite list_elem_of_lookup. split.
  - intros (i & Hi). assert (Hlt : (i < length apps)%nat).
    { rewrite <- (observations_length net apps k). by eapply lookup_lt_Some. }
    destruct (lookup_lt_is_Some_2 apps i Hlt) as [app Happ].
    exists i, app. split; [exact Happ|].
    rewrite (observations_lookup net apps k i app Happ) in Hi. congruence.
  - intros (i & app & Happ & ->). exists i. by apply observations_lookup.
Qed.

(** X7: the accessibility test passes exactly when at least one of the
    applications answers with a status in [200, 400); the other applications
    may fail in any way, and with the default configuration one running
    server is enough. *)
Theorem accessibility_test_passes_iff (net : Network) (apps : list AppUrl)
    (w : World) :
  passes (accessibility_test net apps w []) <->
  exists i app, apps !! i = Some app /\
    succeeded (net (calls w + i)%nat (url app)) = true.
Proof.
  unfold accessibility_test, bind.
  destruct (accessibility_loop_run net apps w []) as [w' ->].
  unfold get_locals. cbn [app].
  rewrite expect_toBeGreaterThan_passes.
  change 0 with (Z.of_nat 0). rewrite <- Nat2Z.inj_lt, filter_nonempty.
  split.
  - intros (r & Hr & Hacc). apply observations_elem in Hr as (i & app & Happ & ->).
    exists i, app. split; [exact Happ|].
    by rewrite <- (observe_accessible_succeeded app).
  - intros (i & app & Happ & Hok). exists (observe app (net (calls w + i)%nat (url app))).
    split; [apply observations_elem; eauto|].
    by rewrite observe_accessible_succeeded.
Qed.

(** ** The health check as a whole *)

Lemma health_steps_attempts net endpoints : forall k h,
  health_steps net endpoints k h = run_all (attempts net endpoints k) h.
Proof.
  induction endpoints as [|endpoint rest IH]; intros k h; [reflexivity|].
  cbn [health_steps attempts]. rewrite IH. reflexivity.
Qed.

Lemma attempts_length net endpoints : forall k,
  length (attempts net endpoints k) = length endpoints.
Proof. induction endpoints as [|e rest IH]; intros k; cbn; [done | by rewrite IH]. Qed.

Lemma health_of_attempts net endpoints w :
  health_of net endpoints w = run_all (attempts net endpoints (calls w)) health0.
Proof. rewrite health_of_steps. apply health_steps_attempts. Qed.

Lemma answered_time_cons endpoint a (rest : list (Endpoint * Attempt)) :
  answered_time ((endpoint, a) :: rest) =
  match a with
  | Responded _ elapsed => Z.of_N elapsed + answered_time rest
  | Rejected _ _ => answered_time rest
  end.
Proof. reflexivity. Qed.

Lemma count_api_ok_cons endpoint a (rest : list (Endpoint * Attempt)) :
  count_api_ok ((endpoint, a) :: rest) =
  if is_api (e_type endpoint) && succeeded a
  then S (count_api_ok rest) else count_api_ok rest.
Proof.
  unfold count_api_ok. cbn [List.filter fst snd].
  by destruct (is_api (e_type endpoint) && succeeded a).
Qed.

Lemma run_all_totals (runs : list (Endpoint * Attempt)) : forall h,
  apiEndpoints (run_all runs h) = apiEndpoints h + Z.of_nat (count_api_ok runs) /\
  totalTime (run_all runs h) = totalTime h + answered_time runs.
Proof.
  induction runs as [|[endpoint a] rest IH]; intros h.
  - cbn. lia.
  - change (run_all ((endpoint, a) :: rest) h)
      with (run_all rest (health_step h endpoint a)).
    destruct (IH (health_step h endpoint a)) as (Ha & Ht). rewrite Ha, Ht.
    rewrite answered_time_cons, count_api_ok_cons.
    unfold health_step, succeeded.
    destruct a as [status elapsed | e elapsed];
      [destruct (is_api (e_type endpoint)); [destruct (in_success_range status)|]|];
      cbn [apiEndpoints totalTime andb]; rewrite ?andb_false_r; lia.
Qed.

Lemma answered_le_spent (runs : list (Endpoint * Attempt)) :
  0 <= answered_time runs <= spent_time runs.
Proof.
  induction runs as [|[endpoint a] rest IH]; [cbn; lia|].
  rewrite answered_time_cons.
  change (spent_time ((endpoint, a) :: rest))
    with (Z.of_N (elapsed_of a) + spent_time rest).
  destruct a; cbn [elapsed_of]; lia.
Qed.

Lemma count_api_ok_le (runs : list (Endpoint * Attempt)) :
  (count_api_ok runs <= count_accessible runs)%nat.
Proof.
  apply filter_length_le. intros [endpoint a]. cbn [fst snd].
  unfold counted_accessible, succeeded.
  destruct (is_api (e_type endpoint)), a; cbn; congruence.
Qed.

Lemma count_accessible_le (runs : list (Endpoint * Attempt)) :
  (count_accessible runs <= length runs)%nat.
Proof. unfold count_accessible. apply List.filter_length_le. Qed.

(** X8: the counters of the health check after any run: every endpoint is
    counted once as a test, each test is counted either as accessible or as
    failed, and the API endpoints counted are among the accessible ones. *)
Theorem health_counters_partition (net : Network) (endpoints : list Endpoint)
    (w : World) :
  let h := health_of net endpoints w in
  totalTests h = Z.of_nat (length endpoints) /\
  accessibleApps h + failedTests h = totalTests h /\
  0 <= failedTests h /\
  0 <= apiEndpoints h <= accessibleApps h.
Proof.
  cbn zeta. rewrite health_of_attempts.
  pose proof (attempts_length net endpoints (calls w)) as Hlen.
  set (runs := attempts net endpoints (calls w)) in *.
  destruct (fold_health_counts runs health0) as (Ha & Ht & Hf).
  destruct (run_all_totals runs health0) as (Hapi & _).
  rewrite Ha, Ht, Hf, Hapi, <- Hlen.
  pose proof (count_api_ok_le runs). pose proof (count_accessible_le runs).
  cbn. lia.
Qed.

Lemma quotient_positive (a b : Z) :
  0 < b -> exists p, b = Z.pos p /\
    quotient a b = Finite (inject_Z a / inject_Z (Z.pos p))%Q.
Proof.
  intros Hb. destruct b as [|p|p]; try lia. exists p. split; [reflexivity|].
  reflexivity.
Qed.

Ltac cross_multiply E :=
  unfold Qeq, Qlt in E; cbn in E;
  rewrite ?Pos.mul_1_l, ?Pos.mul_1_r, ?Z.mul_1_r in E.

Ltac settle_comparison :=
  split; intros ?; first [discriminate | reflexivity | nia].

Lemma num_lt_quotient (a b c : Z) :
  0 < b -> (num_lt (quotient a b) (inject_Z c) = true <-> a < c * b).
Proof.
  intros Hb. destruct (quotient_positive a b Hb) as (p & -> & ->).
  cbn [num_lt].
  destruct (inject_Z a / inject_Z (Z.pos p) ?= inject_Z c)%Q eqn:E.
  - apply Qeq_alt in E. cross_multiply E. settle_comparison.
  - apply Qlt_alt in E. cross_multiply E. settle_comparison.
  - apply Qgt_alt in E. cross_multiply E. settle_comparison.
Qed.

Lemma num_lt_times100 (a b c : Z) :
  0 < b ->
  (num_lt (times100 (quotient a b)) (inject_Z c) = true <-> a * 100 < c * b).
Proof.
  intros Hb. destruct (quotient_positive a b Hb) as (p & -> & ->).
  cbn [num_lt times100].
  destruct (inject_Z a / inject_Z (Z.pos p) * 100 ?= inject_Z c)%Q eqn:E.
  - apply Qeq_alt in E. cross_multiply E. settle_comparison.
  - apply Qlt_alt in E. cross_multiply E. settle_comparison.
  - apply Qgt_alt in E. cross_multiply E. settle_comparison.
Qed.

Lemma num_gt_times100 (a b c : Z) :
  0 < b ->
  (num_gt (times100 (quotient a b)) (inject_Z c) = true <-> c * b < a * 100).
Proof.
  intros Hb. destruct (quotient_positive a b Hb) as (p & -> & ->).
  cbn [num_gt times100].
  destruct (inject_Z a / inject_Z (Z.pos p) * 100 ?= inject_Z c)%Q eqn:E.
  - apply Qeq_alt in E. cross_multiply E. settle_comparison.
  - apply Qlt_alt in E. cross_multiply E. settle_comparison.
  - apply Qgt_alt in E. cross_multiply E. settle_comparison.
Qed.

Lemma health_loop_world net endpoints : forall w h,
  for_of endpoints (health_body net) w h =
  (Ok tt,
   mkWorld (now w + spent_time (attempts net endpoints (calls w)))
     (calls w + length endpoints),
   run_all (attempts net endpoints (calls w)) h).
Proof.
  induction endpoints as [|endpoint rest IH]; intros w h.
  - cbn. unfold ret. destruct w as [t c]. cbn. do 3 f_equal; lia.
  - cbn [for_of]. unfold bind. rewrite health_body_run, IH.
    cbn [after now calls attempts length].
    change (run_all ((endpoint, net (calls w) (e_url endpoint))
                     :: attempts net rest (S (calls w))) h)
      with (run_all (attempts net rest (S (calls w)))
              (health_step h endpoint (net (calls w) (e_url endpoint)))).
    change (spent_time ((endpoint, net (calls w) (e_url endpoint))
                        :: attempts net rest (S (calls w))))
      with (Z.of_N (elapsed_of (net (calls w) (e_url endpoint)))
            + spent_time (attempts net rest (S (calls w)))).
    do 3 f_equal; lia.
Qed.

(** X10: [totalTime] adds up the response times of the round trips that
    were answered and nothing for those that were rejected, however long
    they took: it is at most the time that the loop really spent, which is
    what the clock shows at the end. *)
Theorem health_totalTime_skips_rejections (net : Network)
    (endpoints : list Endpoint) (w : World) :
  let runs := attempts net endpoints (calls w) in
  exists h,
    health_loop net endpoints w =
      (Ok tt, mkWorld (now w + spent_time runs) (calls w + length endpoints), h) /\
    totalTime h = answered_time runs /\
    0 <= answered_time runs <= spent_time runs.
Proof.
  cbn zeta. eexists. split; [apply health_loop_world|].
  destruct (run_all_totals (attempts net endpoints (calls w)) health0) as (_ & ->).
  split; [cbn; lia | apply answered_le_spent].
Qed.

Lemma expect_num_toBeLessThan_run {L} (x : Num) (c : Q) (w : World) (l : L) :
  expect_num_toBeLessThan x c w l =
  (if num_lt x c then Ok tt
   else Throw (failed_expect "toBeLessThan"
                 (Number x) (Number (Finite c))), w, l).
Proof. unfold expect_num_toBeLessThan. by destruct (num_lt x c). Qed.

Lemma expect_num_toBeGreaterThan_run {L} (x : Num) (c : Q) (w : World) (l : L) :
  expect_num_toBeGreaterThan x c w l =
  (if num_gt x c then Ok tt
   else Throw (failed_expect "toBeGreaterThan"
                 (Number x) (Number (Finite c))), w, l).
Proof. unfold expect_num_toBeGreaterThan. by destruct (num_gt x c). Qed.

(** X11: the health check passes exactly when at least one endpoint is
    counted accessible and the total of the answered response times is below
    30000 ms per endpoint. Of its four assertions, those on the error rate
    and on the health score hold as soon as the first one
    ([accessibleApps > 0]) does. *)
Theorem health_test_passes_iff (net : Network) (endpoints : list Endpoint)
    (w : World) :
  let runs := attempts net endpoints (calls w) in
  passes (health_test net endpoints w health0) <->
  (0 < count_accessible runs)%nat /\
  answered_time runs < 30000 * Z.of_nat (length endpoints).
Proof.
  cbn zeta. unfold health_test, bind. rewrite health_loop_world.
  unfold get_locals.
  pose proof (attempts_length net endpoints (calls w)) as Hlen.
  set (runs := attempts net endpoints (calls w)) in *.
  destruct (fold_health_counts runs health0) as (Ha & Ht & Hf).
  destruct (run_all_totals runs health0) as (_ & Htime).
  pose proof (count_accessible_le runs) as Hle.
  cbn [accessibleApps totalTests failedTests totalTime health0] in Ha, Ht, Hf, Htime.
  rewrite Ha, Ht, Hf, Htime, Hlen in *. clear Ha Ht Hf Htime.
  rewrite !Z.add_0_l.
  unfold expect_toBeGreaterThan at 1.
  destruct (0 <? Z.of_nat (count_accessible runs)) eqn:Hacc.
  - apply Z.ltb_lt in Hacc.
    assert (Hn : 0 < Z.of_nat (length endpoints)) by lia.
    unfold ret at 1.
    rewrite expect_num_toBeLessThan_run.
    replace (num_lt _ 100) with true.
    2:{ symmetry. apply (num_lt_times100 _ _ 100 Hn). nia. }
    rewrite expect_num_toBeLessThan_run.
    destruct (num_lt _ 30000) eqn:Havg.
    + rewrite expect_num_toBeGreaterThan_run.
      replace (num_gt _ 0) with true.
      2:{ symmetry. apply (num_gt_times100 _ _ 0 Hn). nia. }
      apply (num_lt_quotient _ _ 30000 Hn) in Havg.
      split; [intros _; split; lia | intros _; by exists tt].
    + split.
      * intros [a Hpass]. discriminate Hpass.
      * intros [_ Hlt]. apply (num_lt_quotient _ _ 30000 Hn) in Hlt.
        discriminate (eq_trans (eq_sym Hlt) Havg).
  - apply Z.ltb_ge in Hacc. unfold throw. split.
    + intros [a Hpass]. discriminate Hpass.
    + lia.
Qed.

(** ** The performance test as a whole *)

Lemma List_last_cons {A : Type} (rest : list A) : forall x d d' : A,
  List.last (x :: rest) d = List.last (x :: rest) d'.
Proof.
  induction rest as [|y rest IH]; intros x d d'; [reflexivity|].
  change (List.last (y :: rest) d = List.last (y :: rest) d'). apply IH.
Qed.

Lemma last_cons_default {A : Type} (rest : list A) : forall e : A,
  last (e :: rest) = Some (List.last rest e).
Proof.
  induction rest as [|x rest IH]; intros e; [reflexivity|].
  rewrite last_cons_cons, IH. f_equal.
  destruct rest as [|y rest]; [reflexivity|].
  change (List.last (y :: rest) x = List.last (y :: rest) e).
  apply List_last_cons.
Qed.

Lemma fold_on_lcp (batches : list (list Q)) : forall lcp,
  fold_left on_lcp batches lcp =
  match last (concat batches) with
  | Some e => Some e
  | None => lcp
  end.
Proof.
  induction batches as [|batch rest IH]; intros lcp; [reflexivity|].
  cbn [fold_left concat]. rewrite IH, last_app.
  destruct (last (concat rest)) as [e|]; [reflexivity|].
  destruct batch as [|e batch]; [reflexivity|].
  cbn [on_lcp]. by rewrite last_cons_default.
Qed.

(** X12: the LCP that the performance test reports is the start time of the
    last largest-contentful-paint entry handed to the observer before the
    timer fires, over all the callbacks; it is absent when no entry was. *)
Theorem perf_lcp_is_last_entry (pb : PageBehaviour) :
  m_lcp (measure pb) = last (concat (lcp_batches pb)).
Proof.
  unfold measure. cbn [m_lcp]. rewrite fold_on_lcp.
  by destruct (last (concat (lcp_batches pb))).
Qed.

(** X13: the CLS that the performance test reports is absent when no
    layout-shift callback ran before the timer; otherwise it is the sum, from
    0 and in order of arrival, of the scores of all the entries handed to the
    callbacks, those with recent input left out. How the entries are split
    into callbacks does not matter. *)
Theorem perf_cls_sums_every_batch (pb : PageBehaviour) :
  m_cls (measure pb) =
  match shift_batches pb with
  | [] => None
  | _ :: _ => Some (unexpected_shift_sum 0 (concat (shift_batches pb)))
  end.
Proof.
  unfold measure. cbn [m_cls]. rewrite fold_on_shift. cbn [snd].
  destruct (shift_batches pb); [reflexivity|]. by rewrite accumulate_shifts_sum.
Qed.

Lemma checked_iff_positive (q : Q) :
  truthy q && positive q = true <-> (0 < q)%Q.
Proof.
  unfold truthy, positive. rewrite andb_true_iff, negb_true_iff. split.
  - intros [_ Hp]. destruct (q ?= 0)%Q eqn:E; try discriminate.
    by apply Qgt_alt.
  - intros Hq. split.
    + destruct (Qeq_bool q 0) eqn:E; [|reflexivity].
      apply Qeq_bool_iff in E. rewrite E in Hq. by apply Qlt_irrefl in Hq.
    + apply Qgt_alt in Hq. by rewrite Hq.
Qed.

Lemma less_than_failure_none (received expected : Q) :
  less_than_failure received expected = None <-> (received < expected)%Q.
Proof.
  unfold less_than_failure. rewrite Qlt_alt.
  destruct (received ?= expected)%Q; split; congruence.
Qed.

Lemma expect_toBeLessThan_run {L} (received expected : Q) (w : World) (l : L) :
  expect_toBeLessThan received expected w l =
  (match less_than_failure received expected with
   | Some e => Throw e
   | None => Ok tt
   end, w, l).
Proof.
  unfold expect_toBeLessThan, less_than_failure.
  by destruct (received ?= expected)%Q.
Qed.

Lemma check_thresholds_run {L} (m : Metrics) (w : World) (l : L) :
  check_thresholds m w l =
  (match thresholds_failure m with
   | Some e => Throw e
   | None => Ok tt
   end, w, l).
Proof.
  unfold check_thresholds, thresholds_failure, bind.
  destruct (m_lcp m) as [lcp|].
  - destruct (truthy lcp && positive lcp).
    + rewrite expect_toBeLessThan_run.
      destruct (less_than_failure lcp LCP); [reflexivity|].
      destruct (m_cls m) as [cls|]; [apply expect_toBeLessThan_run | reflexivity].
    + unfold ret at 1.
      destruct (m_cls m) as [cls|]; [apply expect_toBeLessThan_run | reflexivity].
  - unfold ret at 1.
    destruct (m_cls m) as [cls|]; [apply expect_toBeLessThan_run | reflexivity].
Qed.

(** X14: the threshold check of the performance test passes exactly when the
    LCP, if one was measured and is positive, is strictly below 2500 ms, and
    the CLS, if one was measured, is strictly below 0.1. An absent metric
    and an LCP of 0 are not checked; a value equal to its threshold fails. *)
Theorem check_thresholds_passes_iff {L : Type} (m : Metrics) (w : World) (l : L) :
  passes (check_thresholds m w l) <->
  (forall lcp, m_lcp m = Some lcp -> (0 < lcp)%Q -> (lcp < LCP)%Q) /\
  (forall cls, m_cls m = Some cls -> (cls < CLS)%Q).
Proof.
  rewrite check_thresholds_run. unfold passes, thresholds_failure. cbn [fst].
  destruct (m_lcp m) as [lcp|]; [destruct (truthy lcp && positive lcp) eqn:Hc|].
  - apply checked_iff_positive in Hc.
    destruct (less_than_failure lcp LCP) as [e|] eqn:Hl.
    + split; [by intros [a Ha]|]. intros [Hlcp _].
      specialize (Hlcp lcp eq_refl Hc).
      apply less_than_failure_none in Hlcp. congruence.
    + apply less_than_failure_none in Hl.
      destruct (m_cls m) as [cls|].
      * destruct (less_than_failure cls CLS) as [e|] eqn:Hs.
        -- split; [by intros [a Ha]|]. intros [_ Hcls].
           specialize (Hcls cls eq_refl).
           apply less_than_failure_none in Hcls. congruence.
        -- apply less_than_failure_none in Hs. split; [|intros _; by exists tt].
           intros _. split; [by intros ? [= <-] _ | by intros ? [= <-]].
      * split; [|intros _; by exists tt].
        intros _. split; [by intros ? [= <-] _ | done].
  - assert (Hskip : ~ (0 < lcp)%Q).
    { intros Hq. apply checked_iff_positive in Hq. congruence. }
    destruct (m_cls m) as [cls|].
    + destruct (less_than_failure cls CLS) as [e|] eqn:Hs.
      * split; [by intros [a Ha]|]. intros [_ Hcls].
        specialize (Hcls cls eq_refl).
           apply less_than_failure_none in Hcls. congruence.
      * apply less_than_failure_none in Hs. split; [|intros _; by exists tt].
        intros _. split; [by intros ? [= <-] ? | by intros ? [= <-]].
    + split; [|intros _; by exists tt].
      intros _. split; [by intros ? [= <-] ? | done].
  - destruct (m_cls m) as [cls|].
    + destruct (less_than_failure cls CLS) as [e|] eqn:Hs.
      * split; [by intros [a Ha]|]. intros [_ Hcls].
        specialize (Hcls cls eq_refl).
           apply less_than_failure_none in Hcls. congruence.
      * apply less_than_failure_none in Hs. split; [|intros _; by exists tt].
        intros _. split; [done | by intros ? [= <-]].
    + split; [|intros _; by exists tt]. done.
Qed.

Lemma perf_body_run net pages app w entries :
  perf_body net pages app w entries =
  (Ok tt, after w (net (calls w) (url app)),
   entries ++ perf_entries app (net (calls w) (url app)) (pages (url app))).
Proof.
  unfold perf_body, try_catch, bind, round_trip, waitForLoadState, perf_entries.
  destruct (net (calls w) (url app)) as [status elapsed | e elapsed];
    [|reflexivity].
  destruct (load_state (pages (url app))) as [e|]; [reflexivity|].
  unfold ret at 1, modify at 1. rewrite check_thresholds_run.
  destruct (thresholds_failure (measure (pages (url app)))) as [e|];
    unfold modify, after; cbn [elapsed_of]; [|reflexivity].
  by rewrite <- app_assoc.
Qed.

Lemma perf_loop_run net pages apps : forall w entries,
  exists w', for_of apps (perf_body net pages) w entries =
             (Ok tt, w', entries ++ perf_results net pages apps (calls w)).
Proof.
  induction apps as [|app rest IH]; intros w entries; cbn [for_of perf_results].
  - exists w. unfold ret. by rewrite app_nil_r.
  - unfold bind. rewrite perf_body_run.
    destruct (IH (after w (net (calls w) (url app)))
                 (entries ++ perf_entries app (net (calls w) (url app))
                               (pages (url app)))) as [w' Hw'].
    exists w'. rewrite Hw'. cbn [after calls]. by rewrite <- app_assoc.
Qed.

Lemma perf_results_elem net pages apps (entry : PerfEntry) : forall k,
  entry ∈ perf_results net pages apps k <->
  exists i app, apps !! i = Some app /\
    entry ∈ perf_entries app (net (k + i)%nat (url app)) (pages (url app)).
Proof.
  induction apps as [|a rest IH]; intros k; cbn [perf_results].
  - split; [by intros ?%elem_of_nil | by intros (i & app & ? & _)].
  - rewrite elem_of_app, IH. split.
    + intros [Hin | (i & app & Happ & Hin)].
      * exists 0%nat, a. split; [reflexivity|]. by rewrite Nat.add_0_r.
      * exists (S i), app. split; [exact Happ|].
        by replace (k + S i)%nat with (S k + i)%nat by lia.
    + intros (i & app & Happ & Hin). destruct i as [|i].
      * injection Happ as ->. left. by rewrite Nat.add_0_r in Hin.
      * right. exists i, app. split; [exact Happ|].
        by replace (S k + i)%nat with (k + S i)%nat by lia.
Qed.

Lemma perf_entries_with_metrics app a pb (entry : PerfEntry) :
  entry ∈ perf_entries app a pb /\ has_metrics entry = true <->
  (exists status elapsed, a = Responded status elapsed) /\
  load_state pb = None /\
  entry = mkPerfEntry (name app) (m_lcp (measure pb)) (m_cls (measure pb))
            (m_fcp (measure pb)) None /\
  has_metrics entry = true.
Proof.
  unfold perf_entries. split.
  - intros [Hin Hm]. destruct a as [status elapsed | e elapsed].
    + destruct (load_state pb) as [e|].
      * apply list_elem_of_singleton in Hin. subst entry. discriminate Hm.
      * apply elem_of_cons in Hin as [-> | Hin]; [eauto 6|].
        destruct (thresholds_failure (measure pb)) as [e|].
        -- apply list_elem_of_singleton in Hin. subst entry. discriminate Hm.
        -- by apply elem_of_nil in Hin.
    + apply list_elem_of_singleton in Hin. subst entry. discriminate Hm.
  - intros ((status & elapsed & ->) & -> & -> & Hm). split; [left | exact Hm].
Qed.

(** X15: the performance test passes exactly when, for at least one
    application, the navigation answers, the load settles and the measurement
    yields a non-zero LCP, a non-zero FCP or a CLS. The thresholds play no
    part: the error of a failed threshold check is caught and recorded, and
    the application still counts as one with metrics. *)
Theorem perf_test_passes_iff (net : Network) (pages : string -> PageBehaviour)
    (apps : list AppUrl) (w : World) :
  passes (perf_test net pages apps w []) <->
  exists i app, apps !! i = Some app /\
    (exists status elapsed,
       net (calls w + i)%nat (url app) = Responded status elapsed) /\
    load_state (pages (url app)) = None /\
    has_metrics
      (mkPerfEntry (name app) (m_lcp (measure (pages (url app))))
         (m_cls (measure (pages (url app))))
         (m_fcp (measure (pages (url app)))) None) = true.
Proof.
  unfold perf_test, bind.
  destruct (perf_loop_run net pages apps w []) as [w' ->].
  unfold get_locals. cbn [app].
  rewrite expect_toBeGreaterThan_passes.
  change 0 with (Z.of_nat 0). rewrite <- Nat2Z.inj_lt, filter_nonempty.
  split.
  - intros (entry & Hin & Hm).
    apply perf_results_elem in Hin as (i & app & Happ & Hin).
    destruct (proj1 (perf_entries_with_metrics app _ _ entry) (conj Hin Hm))
      as (Hresp & Hload & -> & Hm').
    exists i, app. eauto.
  - intros (i & app & Happ & Hresp & Hload & Hm).
    eexists. split; [|exact Hm].
    apply perf_results_elem. exists i, app. split; [exact Happ|].
    apply (perf_entries_with_metrics app _ _ _). eauto.
Qed.

(** ** The API integration test as a whole *)

Lemma prefix_spec (sub s : string) :
  String.prefix sub s = true <-> exists post, s = sub +:+ post.
Proof.
  revert s. induction sub as [|c sub IH]; intros s.
  - split; [intros _; by exists s | intros _; by destruct s].
  - destruct s as [|d s]; cbn [String.prefix].
    + split; [done | by intros [post ?]].
    + destruct (Ascii.ascii_dec c d) as [->|Hne].
      * rewrite IH. split; intros [post Hp]; exists post.
        -- by rewrite Hp.
        -- by injection Hp.
      * split; [done|]. intros [post Hp]. injection Hp as ? ?. congruence.
Qed.

(** [includes] finds exactly the substrings. *)
Lemma includes_spec (s sub : string) :
  includes s sub = true <-> exists pre post, s = pre +:+ sub +:+ post.
Proof.
  induction s as [|c s IH]; cbn [includes]; rewrite orb_true_iff, prefix_spec.
  - split.
    + intros [[post ->] | ?]; [by exists "", post | done].
    + intros ([|? ?] & post & Hs); [left; by exists post | discriminate Hs].
  - rewrite IH. split.
    + intros [[post ->] | (pre & post & ->)]; [by exists "", post|].
      by exists (String c pre), post.
    + intros ([|d pre] & post & Hs); [left; by exists post|].
      right. injection Hs as -> ->. by exists pre, post.
Qed.

Lemma api_body_run net contents apiTest w results :
  api_body net contents apiTest w results =
  (Ok tt, after w (net (calls w) (t_url apiTest)),
   results ++ api_entries apiTest (net (calls w) (t_url apiTest))
                (contents (calls w) (t_url apiTest))).
Proof.
  unfold api_body, try_catch, bind, call_index, round_trip, api_entries.
  destruct (net (calls w) (t_url apiTest)) as [status elapsed | e elapsed];
    [|reflexivity].
  unfold modify at 1.
  destruct (api_success apiTest status (contents (calls w) (t_url apiTest))).
  - destruct (String.eqb (expectedContentType apiTest) "application/json").
    + destruct (json_error (contents (calls w) (t_url apiTest))) as [e|];
        unfold throw, ret, modify, after; cbn [elapsed_of];
        by rewrite <- ?app_assoc.
    + unfold expect_toBeGreaterThan.
      destruct (0 <? Z.of_nat (String.length (text (contents (calls w) (t_url apiTest)))));
        unfold throw, ret, modify, after; cbn [elapsed_of];
        by rewrite <- ?app_assoc.
  - reflexivity.
Qed.

Lemma api_loop_run net contents tests : forall w results,
  exists w', for_of tests (api_body net contents) w results =
             (Ok tt, w', results ++ api_results net contents tests (calls w)).
Proof.
  induction tests as [|apiTest rest IH]; intros w results;
    cbn [for_of api_results].
  - exists w. unfold ret. by rewrite app_nil_r.
  - unfold bind. rewrite api_body_run.
    destruct (IH (after w (net (calls w) (t_url apiTest)))
                 (results ++ api_entries apiTest (net (calls w) (t_url apiTest))
                               (contents (calls w) (t_url apiTest))))
      as [w' Hw'].
    exists w'. rewrite Hw'. cbn [after calls]. by rewrite <- app_assoc.
Qed.

Lemma api_results_elem net contents tests (r : ApiResult) : forall k,
  r ∈ api_results net contents tests k <->
  exists i apiTest, tests !! i = Some apiTest /\
    r ∈ api_entries apiTest (net (k + i)%nat (t_url apiTest))
          (contents (k + i)%nat (t_url apiTest)).
Proof.
  induction tests as [|a rest IH]; intros k; cbn [api_results].
  - split; [by intros ?%elem_of_nil | by intros (i & t & ? & _)].
  - rewrite elem_of_app, IH. split.
    + intros [Hin | (i & t & Ht & Hin)].
      * exists 0%nat, a. split; [reflexivity|]. by rewrite Nat.add_0_r.
      * exists (S i), t. split; [exact Ht|].
        by replace (k + S i)%nat with (S k + i)%nat by lia.
    + intros (i & t & Ht & Hin). destruct i as [|i].
      * injection Ht as ->. left. by rewrite Nat.add_0_r in Hin.
      * right. exists i, t. split; [exact Ht|].
        by replace (S k + i)%nat with (k + S i)%nat by lia.
Qed.

Lemma api_entries_success apiTest a content :
  (exists r, r ∈ api_entries apiTest a content /\ a_success r = true) <->
  exists status elapsed, a = Responded status elapsed /\
    api_success apiTest status content = true.
Proof.
  unfold api_entries. split.
  - intros (r & Hin & Hs). destruct a as [status elapsed | e elapsed].
    + apply elem_of_cons in Hin as [-> | Hin];
        [exists status, elapsed; split; [reflexivity | exact Hs]|].
      destruct (api_success apiTest status content) eqn:E;
        [exists status, elapsed; split; [reflexivity | exact E]|].
      by apply elem_of_nil in Hin.
    + apply list_elem_of_singleton in Hin. subst r. discriminate Hs.
  - intros (status & elapsed & -> & Hs). eexists. split; [left | exact Hs].
Qed.

(** X16: the API integration test passes exactly when at least one of the
    tested endpoints answers with the expected status and a [content-type]
    header that contains the expected type. The check of the body plays no
    part: a matching response is recorded as a success before its body is
    read, and an unreadable or empty body only adds a failed entry. *)
Theorem api_test_passes_iff (net : Network) (contents : Contents)
    (tests : list ApiTest) (w : World) :
  passes (api_test net contents tests w []) <->
  exists i apiTest, tests !! i = Some apiTest /\
    exists status elapsed ct,
      net (calls w + i)%nat (t_url apiTest) = Responded status elapsed /\
      status = expectedStatus apiTest /\
      contentType (contents (calls w + i)%nat (t_url apiTest)) = Some ct /\
      includes ct (expectedContentType apiTest) = true.
Proof.
  unfold api_test, bind.
  destruct (api_loop_run net contents tests w []) as [w' ->].
  unfold get_locals. cbn [app].
  rewrite expect_toBeGreaterThan_passes.
  change 0 with (Z.of_nat 0). rewrite <- Nat2Z.inj_lt, filter_nonempty.
  split.
  - intros (r & Hin & Hs).
    apply api_results_elem in Hin as (i & t & Ht & Hin).
    destruct (proj1 (api_entries_success t _ _) (ex_intro _ r (conj Hin Hs)))
      as (status & elapsed & Hnet & Hok).
    exists i, t. split; [exact Ht|].
    unfold api_success in Hok. apply andb_true_iff in Hok as [Hst Hct].
    apply Z.eqb_eq in Hst.
    destruct (contentType (contents (calls w + i)%nat (t_url t))) as [ct|] eqn:E;
      [|discriminate Hct].
    exists status, elapsed, ct. eauto.
  - intros (i & t & Ht & status & elapsed & ct & Hnet & Hst & Hct & Hinc).
    destruct (proj2 (api_entries_success t (net (calls w + i)%nat (t_url t))
                       (contents (calls w + i)%nat (t_url t)))) as (r & Hin & Hs).
    { exists status, elapsed. split; [exact Hnet|].
      unfold api_success. rewrite Hct. cbn. rewrite Hinc, andb_true_r.
      by apply Z.eqb_eq. }
    exists r. split; [|exact Hs]. apply api_results_elem. eauto.
Qed.

(** ** The Core Web Vitals test and the RSS test of the blog suite *)

Lemma fold_on_lcp_resolve_settled (batches : list (Q * list Q)) : forall v,
  fold_left Blog.on_lcp_resolve batches (Some v) = Some v.
Proof. induction batches as [|b rest IH]; intros v; [reflexivity | apply IH]. Qed.

(** X17: in the Core Web Vitals test each promise is settled by the first
    callback of its observer and ignores the later ones. The LCP is the
    start time of the last entry of the first batch, or 0 when no callback
    ran within the 5 seconds; the CLS is the sum of the scores of the first
    batch, entries with recent input left out, or 0 when no callback ran. *)
Theorem core_web_vitals_first_callback_wins
    (lcp_batches : list (Q * list Q)) (shift_batches : list (list LayoutShift)) :
  Blog.measure_lcp lcp_batches =
    Some match lcp_batches with
         | [] => 0%Q
         | batch :: _ => List.last (snd batch) (fst batch)
         end /\
  Blog.measure_cls shift_batches =
    Some match shift_batches with
         | [] => 0%Q
         | batch :: _ => unexpected_shift_sum 0 batch
         end.
Proof.
  split.
  - unfold Blog.measure_lcp. destruct lcp_batches as [|batch rest]; [reflexivity|].
    cbn [fold_left]. unfold Blog.on_lcp_resolve at 2. cbn [Js.resolve].
    by rewrite fold_on_lcp_resolve_settled.
  - destruct shift_batches as [|batch rest]; [reflexivity|].
    apply blog_measure_cls_first_batch.
Qed.

(** X18: the Core Web Vitals test passes exactly when the navigation
    answers, the LCP of the first callback, if it is positive, is below
    2500 ms, and the layout shift of the first callback is below 0.1. A page
    that reports no LCP entry at all passes the LCP check, and the shifts of
    later callbacks cannot fail the test. *)
Theorem core_web_vitals_test_passes_iff (net : Network) (blogUrl : string)
    (lcp_batches : list (Q * list Q)) (shift_batches : list (list LayoutShift))
    (w : World) :
  passes (Blog.core_web_vitals_test net blogUrl lcp_batches shift_batches w tt) <->
  (exists status elapsed, net (calls w) blogUrl = Responded status elapsed) /\
  (forall batch rest, lcp_batches = batch :: rest ->
     (0 < List.last (snd batch) (fst batch))%Q ->
     (List.last (snd batch) (fst batch) < LCP)%Q) /\
  (unexpected_shift_sum 0 (hd [] shift_batches) < CLS)%Q.
Proof.
  unfold Blog.core_web_vitals_test, bind, round_trip.
  destruct (core_web_vitals_first_callback_wins lcp_batches shift_batches)
    as [-> ->].
  destruct (net (calls w) blogUrl) as [status elapsed | e elapsed].
  2:{ split; [by intros [a Ha] | by intros [(? & ? & ?) _]]. }
  set (w1 := mkWorld _ _).
  set (lcp := match lcp_batches with [] => 0%Q | b :: _ => _ end).
  set (cls := match shift_batches with [] => 0%Q | b :: _ => _ end).
  assert (Hcls : cls = unexpected_shift_sum 0 (hd [] shift_batches)).
  { unfold cls. by destruct shift_batches. }
  rewrite <- Hcls. clear Hcls.
  assert (Hlcp : (forall batch rest, lcp_batches = batch :: rest ->
                    (0 < List.last (snd batch) (fst batch))%Q ->
                    (List.last (snd batch) (fst batch) < LCP)%Q) <->
                 ((0 < lcp)%Q -> (lcp < LCP)%Q)).
  { unfold lcp. destruct lcp_batches as [|b rest].
    - split; [|by intros _ ? ? ?]. intros _ H0. by apply Qlt_irrefl in H0.
    - split; [intros H; by apply (H b rest) | by intros H ? ? [= <- <-]]. }
  rewrite Hlcp. clear Hlcp.
  assert (Hpos : positive lcp = true <-> (0 < lcp)%Q).
  { unfold positive. rewrite Qgt_alt. destruct (lcp ?= 0)%Q; split; congruence. }
  destruct (positive lcp) eqn:Hp.
  - rewrite expect_toBeLessThan_run.
    destruct (less_than_failure lcp LCP) as [e|] eqn:Hl.
    + split; [by intros [a Ha]|]. intros (_ & H & _).
      apply less_than_failure_none in H; [congruence | by apply Hpos].
    + apply less_than_failure_none in Hl. rewrite expect_toBeLessThan_run.
      destruct (less_than_failure cls CLS) as [e|] eqn:Hc.
      * split; [by intros [a Ha]|]. intros (_ & _ & H).
        apply less_than_failure_none in H. congruence.
      * apply less_than_failure_none in Hc.
        split; [intros _; eauto 6 | intros _; by exists tt].
  - unfold ret at 1. rewrite expect_toBeLessThan_run.
    assert (Hskip : ~ (0 < lcp)%Q) by (intros H; apply Hpos in H; congruence).
    destruct (less_than_failure cls CLS) as [e|] eqn:Hc.
    + split; [by intros [a Ha]|]. intros (_ & _ & H).
      apply less_than_failure_none in H. congruence.
    + apply less_than_failure_none in Hc.
      split; [intros _; split; [eauto | split; [by intros ? | exact Hc]]
             | intros _; by exists tt].
Qed.

Lemma rss_body_run net contents blogUrl path w :
  Blog.rss_body net contents blogUrl path w tt =
  (Ok (feed_at net contents (calls w) (blogUrl +:+ path)),
   after w (net (calls w) (blogUrl +:+ path)), tt).
Proof.
  unfold Blog.rss_body, try_catch, bind, call_index, round_trip, feed_at.
  destruct (net (calls w) (blogUrl +:+ path)) as [status elapsed | e elapsed];
    [|reflexivity].
  destruct (status =? 200); [|reflexivity].
  destruct (_ || _); [|reflexivity].
  unfold Blog.expect_toContain.
  destruct (includes _ "<rss"); [|reflexivity].
  destruct (includes _ "<channel>"); reflexivity.
Qed.

(** X19: the RSS test cannot fail. It requests the candidate paths in order
    and stops at the first one that answers 200 with a content type that
    mentions xml or rss and a body that contains both markers; a path whose
    request is rejected, or whose feed lacks a marker, is skipped like one
    that has no feed, and when no path qualifies the test still passes. *)
Theorem rss_test_never_fails (net : Network) (contents : Contents)
    (blogUrl : string) (paths : list string) (w : World) :
  exists w',
    Blog.rss_test net contents blogUrl paths w tt = (Ok tt, w', tt) /\
    calls w' = (calls w + rss_requests net contents blogUrl paths (calls w))%nat /\
    (rss_requests net contents blogUrl paths (calls w) <= length paths)%nat.
Proof.
  revert w. induction paths as [|path rest IH]; intros w.
  - exists w. cbn. split; [reflexivity | lia].
  - cbn [Blog.rss_test rss_requests]. unfold bind. rewrite rss_body_run.
    destruct (feed_at net contents (calls w) (blogUrl +:+ path)).
    + eexists. split; [reflexivity|]. cbn. lia.
    + destruct (IH (after w (net (calls w) (blogUrl +:+ path))))
        as (w' & Hrun & Hcalls & Hle).
      exists w'. split; [exact Hrun|]. cbn [after calls] in Hcalls, Hle.
      cbn [length]. lia.
Qed.

(** ** A timeout of 0 or less *)

(** X20: with a timeout of 0 or less, [waitForCondition] returns [false] at
    once, without evaluating the condition and without starting a timer,
    whatever the condition and the timers would do. *)
Theorem waitForCondition_nonpositive_timeout (env : WaitEnv)
    (timeout interval startTime : Z) (fuel : nat) :
  timeout <= 0 ->
  waitForCondition (S fuel) env timeout interval startTime =
  Some (mkWaitResult (Ok false) 0).
Proof.
  intros Ht. unfold waitForCondition. cbn [wait_loop].
  replace (startTime + Z.of_N (first_gap env) - startTime <? timeout) with false;
    [reflexivity|].
  symmetry. apply Z.ltb_ge. lia.
Qed.

Lemma waitForCondition_nonpositive_timeout_witness :
  waitForCondition 1 (mkWaitEnv 3 (fun _ => mkEvaluation Pending 0)
                        (fun _ _ => 1%N)) 0 500 1700000000000 =
  Some (mkWaitResult (Ok false) 0).
Proof.
  apply (waitForCondition_nonpositive_timeout
           (mkWaitEnv 3 (fun _ => mkEvaluation Pending 0) (fun _ _ => 1%N))
           0 500 1700000000000 0).
  lia.
Defined.

(** ** Failures are data (C3) *)

Lemma perf_loop_world net pages apps : forall w entries,
  exists w', for_of apps (perf_body net pages) w entries =
             (Ok tt, w', entries ++ perf_results net pages apps (calls w)) /\
    calls w' = (calls w + length apps)%nat.
Proof.
  induction apps as [|app rest IH]; intros w entries; cbn [for_of perf_results].
  - exists w. unfold ret. rewrite app_nil_r. split; [reflexivity | cbn; lia].
  - unfold bind. rewrite perf_body_run.
    destruct (IH (after w (net (calls w) (url app)))
                 (entries ++ perf_entries app (net (calls w) (url app))
                               (pages (url app)))) as (w' & Hw' & Hcalls).
    exists w'. rewrite Hw'. cbn [after calls length] in *.
    split; [by rewrite <- app_assoc | lia].
Qed.



(** ** The LCP ceiling (C7) *)

Lemma perf_results_app net pages (l1 l2 : list AppUrl) : forall k,
  perf_results net pages (l1 ++ l2) k =
  perf_results net pages l1 k
  ++ perf_results net pages l2 (k + length l1)%nat.
Proof.
  induction l1 as [|a l1 IH]; intros k; cbn [app perf_results length].
  - by rewrite Nat.add_0_r.
  - rewrite IH, <- app_assoc. do 3 f_equal. lia.
Qed.

Lemma thresholds_failure_above_LCP (m : Metrics) (lcp : Q) :
  m_lcp m = Some lcp ->
  (LCP < lcp)%Q ->
  truthy lcp = true /\
  positive lcp = true /\
  thresholds_failure m =
    Some (failed_expect "toBeLessThan" (Number (Finite lcp)) (Number (Finite LCP))).
Proof.
  intros Hm Hl.
  assert (H0 : (0 < lcp)%Q) by (apply Qlt_trans with LCP; [reflexivity | exact Hl]).
  pose proof (proj2 (checked_iff_positive lcp) H0) as Hc.
  destruct (proj1 (andb_true_iff _ _) Hc) as [Ht Hp].
  split; [exact Ht|]. split; [exact Hp|].
  unfold thresholds_failure, less_than_failure. rewrite Hm, Hc.
  apply Qgt_alt in Hl. by rewrite Hl.
Qed.

(** C7, as amended: for a page whose navigation answers (with status 200
    or any other: the status is not consulted), whose load settles and whose
    measured LCP is above the ceiling, the threshold check throws the error
    of the failed [expect]. In the performance test the [catch] clause
    records that error in an entry of its own, after the entry with the
    metrics of the application; the metrics entry still counts and the test
    ends normally. In the Core Web Vitals test the same check throws out of
    the test. *)
Theorem lcp_above_ceiling_is_recorded (net : Network)
    (pages : string -> PageBehaviour) (apps : list AppUrl) (w : World)
    (i : nat) (app : AppUrl) (status : Z) (elapsed : N) (lcp cls : Q) :
  apps !! i = Some app ->
  net (calls w + i)%nat (url app) = Responded status elapsed ->
  load_state (pages (url app)) = None ->
  m_lcp (measure (pages (url app))) = Some lcp ->
  (LCP < lcp)%Q ->
  let violation :=
    report "toBeLessThan" (Number (Finite lcp)) (Number (Finite LCP)) in
  (exists w' earlier later,
     perf_test net pages apps w [] =
       (Ok tt, w',
        earlier ++
        [ mkPerfEntry (name app) (Some lcp) (m_cls (measure (pages (url app))))
            (m_fcp (measure (pages (url app)))) None;
          mkPerfEntry (name app) None None None (Some violation) ] ++
        later)) /\
  Blog.verify_thresholds lcp cls w tt = (Throw (JsError "Error" violation), w, tt).
Proof.
  intros Happ Hnet Hload Hm Hl violation.
  destruct (thresholds_failure_above_LCP _ lcp Hm Hl) as (Ht & Hp & Hfail).
  split.
  - set (earlier := perf_results net pages (take i apps) (calls w)).
    set (later := perf_results net pages (drop (S i) apps) (S (calls w + i))).
    set (metrics := mkPerfEntry (name app) (Some lcp)
                      (m_cls (measure (pages (url app))))
                      (m_fcp (measure (pages (url app)))) None).
    set (failure := mkPerfEntry (name app) None None None (Some violation)).
    assert (Hres : perf_results net pages apps (calls w) =
                   earlier ++ [metrics; failure] ++ later).
    { rewrite <- (take_drop_middle apps i app Happ) at 1.
      rewrite perf_results_app. cbn [perf_results].
      assert (Hi : length (take i apps) = i).
      { rewrite length_take. apply lookup_lt_Some in Happ. lia. }
      rewrite Hi. unfold perf_entries. rewrite Hnet, Hload, Hfail, Hm.
      reflexivity. }
    unfold perf_test, bind.
    destruct (perf_loop_world net pages apps w []) as (w' & -> & _).
    unfold get_locals. rewrite app_nil_l, Hres.
    exists w', earlier, later.
    unfold expect_toBeGreaterThan.
    replace (0 <? _) with true; [reflexivity|].
    symmetry. apply Z.ltb_lt. change 0 with (Z.of_nat 0). apply Nat2Z.inj_lt.
    apply filter_nonempty. exists metrics. split.
    + apply elem_of_app. right. left.
    + unfold has_metrics, metrics. cbn. by rewrite Ht.
  - unfold Blog.verify_thresholds, bind. rewrite Hp.
    rewrite expect_toBeLessThan_run.
    unfold less_than_failure. apply Qgt_alt in Hl. by rewrite Hl.
Qed.

End WithReport.

(** ** Concrete runs *)

(** One report among others, to run the tests on concrete inputs: the line
    that names the matcher. *)
Definition matcher_line : Report :=
  fun matcher _ _ => "expect(received)." +:+ matcher +:+ "(expected)".

(** C7, counterexample: the only application of the performance test
    answers 200 and its page reports an LCP of 3200 ms, above the ceiling of
    2500 ms. The test ends normally: no failure is reported for the target;
    the violation is kept in a second entry. *)
Lemma perf_test_passes_with_lcp_above_ceiling :
  let blog := mkAppUrl "Blog" "http://localhost:3000" in
  let pages := fun _ : string => mkPageBehaviour None [] [[3200%Q]] [] in
  perf_test (reporting := matcher_line) (scripted [Responded 200 150%N]) pages
    [blog] (mkWorld 0 0) [] =
  (Ok tt, mkWorld 150 1,
   [ mkPerfEntry "Blog" (Some 3200%Q) None None None;
     mkPerfEntry "Blog" None None None
       (Some (matcher_line "toBeLessThan"
                (Number (Finite 3200)) (Number (Finite LCP)))) ]).
Proof. vm_compute. reflexivity. Qed.

Lemma lcp_above_ceiling_is_recorded_witness :
  let blog := mkAppUrl "Blog" "http://localhost:3000" in
  let pages := fun _ : string => mkPageBehaviour None [] [[3200%Q]] [] in
  let violation :=
    matcher_line "toBeLessThan" (Number (Finite 3200)) (Number (Finite LCP)) in
  (exists w' earlier later,
     perf_test (reporting := matcher_line) (scripted [Responded 200 150%N]) pages
       [blog] (mkWorld 0 0) [] =
       (Ok tt, w',
        earlier ++
        [ mkPerfEntry "Blog" (Some 3200%Q) None None None;
          mkPerfEntry "Blog" None None None (Some violation) ] ++
        later)) /\
  Blog.verify_thresholds (reporting := matcher_line) 3200 (1 # 100)
    (mkWorld 0 0) tt =
    (Throw (JsError "Error" violation), mkWorld 0 0, tt).
Proof.
  intros blog pages.
  apply (lcp_above_ceiling_is_recorded (reporting := matcher_line)
           (scripted [Responded 200 150%N]) pages [blog] (mkWorld 0 0) 0 blog
           200 150 3200 (1 # 100));
    reflexivity.
Defined.
